(** * Timeline reconstruction and deterministic anomaly engine

    A shallow embedding of [src/analysis/anomaly_analysis.py] and
    [src/timeline/timeline_builder.py], followed by the properties of the
    timeline merger, the anomaly rule battery, the severity classifier and
    the report writer.

    Conventions of the embedding:
    - a Python [dict] with string keys is a [gmap string value];
    - a [dict] whose iteration order matters ([evidence_data], a [Counter])
      is an association list in insertion order;
    - a Python exception is the [Raise] branch of [result];
    - a Python [str] is held as its UTF-8 bytes, which compare as its
      characters do. *)

From Stdlib Require Import ZArith List String Ascii Bool Lia Permutation.
From stdpp Require Import gmap strings list fin_maps pretty sorting.

Local Open Scope string_scope.
Local Open Scope list_scope.
Local Open Scope Z_scope.

(** ** Python values, exceptions and the builtins the program relies on *)

Module Py.

Inductive exn := TypeError | KeyError | ValueError | AttributeError.

Inductive result (A : Type) :=
| Ok (a : A)
| Raise (e : exn).
Arguments Ok {A} a.
Arguments Raise {A} e.

#[global] Instance result_ret : MRet result := λ A a, Ok a.
#[global] Instance result_bind : MBind result := λ A B f m,
  match m with
  | Ok a => f a
  | Raise e => Raise e
  end.

(** [datetime.datetime], naive, at the resolution of one second (the only
    instants the format [%Y-%m-%d %H:%M:%S] produces). *)
Record datetime := mkdt {
  year : Z; month : Z; day : Z; hour : Z; minute : Z; second : Z }.

(** The values a field of a record can hold: what [json.load] yields for
    scalars, and the [datetime] the normalizer stores. *)
Inductive value :=
| VNone
| VBool (b : bool)
| VInt (n : Z)
| VStr (s : string)
| VDatetime (d : datetime).

#[global] Instance datetime_eq_dec : EqDecision datetime.
Proof. solve_decision. Defined.
#[global] Instance value_eq_dec : EqDecision value.
Proof. solve_decision. Defined.

(** *** Dictionaries

    An evidence record, a normalized record, a timeline event and an
    anomaly are all plain [dict]s with string keys. *)
Abbreviation record := (gmap string value).

(** [d.get(k, default)] and [d[k]] *)
Definition get (d : record) (k : string) (dflt : value) : value :=
  default dflt (d !! k).
Definition getitem (d : record) (k : string) : result value :=
  match d !! k with
  | Some v => Ok v
  | None => Raise KeyError
  end.

(** *** Calendar arithmetic of [datetime] *)

Definition is_leap (y : Z) : bool :=
  (y mod 4 =? 0) && (negb (y mod 100 =? 0) || (y mod 400 =? 0)).

Definition days_in_month (y m : Z) : Z :=
  if m =? 2 then (if is_leap y then 29 else 28)
  else if (m =? 4) || (m =? 6) || (m =? 9) || (m =? 11) then 30
  else 31.

Definition days_before_year (y : Z) : Z :=
  let p := y - 1 in p * 365 + p / 4 - p / 100 + p / 400.

Definition days_before_month (y m : Z) : Z :=
  nth (Z.to_nat (m - 1)) [0; 31; 59; 90; 120; 151; 181; 212; 243; 273; 304; 334] 0
  + (if (2 <? m) && is_leap y then 1 else 0).

Definition toordinal (d : datetime) : Z :=
  days_before_year (year d) + days_before_month (year d) (month d) + day d.

(** Seconds since the start of day one of year one; two datetimes compare
    as these numbers do, and their difference is the [timedelta]. *)
Definition to_seconds (d : datetime) : Z :=
  toordinal d * 86400 + hour d * 3600 + minute d * 60 + second d.

(** The checks of the [datetime] constructor. *)
Definition datetime_ok (d : datetime) : bool :=
  (1 <=? year d) && (year d <=? 9999)
  && (1 <=? month d) && (month d <=? 12)
  && (1 <=? day d) && (day d <=? days_in_month (year d) (month d))
  && (0 <=? hour d) && (hour d <=? 23)
  && (0 <=? minute d) && (minute d <=? 59)
  && (0 <=? second d) && (second d <=? 59).

Definition datetime_min : datetime := mkdt 1 1 1 0 0 0.

(** [a - b] is a [timedelta], held as its [total_seconds()]. *)
Definition timedelta := Z.
Definition datetime_sub (a b : datetime) : timedelta := to_seconds a - to_seconds b.
Definition total_seconds (t : timedelta) : Z := t.
Definition days (t : timedelta) : Z := t / 86400.

(** *** [datetime.strptime(s, "%Y-%m-%d %H:%M:%S")]

    The library turns the format into the regular expression
    [(\d\d\d\d)-(1[0-2]|0[1-9]|[1-9])-(3[01]|[12]\d|0[1-9]|[1-9]| [1-9])\s+
     (2[0-3]|[0-1]\d|\d):([0-5]\d|\d):(6[0-1]|[0-5]\d|\d)],
    takes its first match at the start of the text, refuses text left over
    and then builds the [datetime], which checks the ranges. A matcher is
    the list of its matches in backtracking order. *)

(** The characters of a text: the code points its UTF-8 bytes encode. *)
Definition code (c : ascii) : Z := Z.of_N (N_of_ascii c).

Fixpoint utf8_decode (s : list ascii) : list Z :=
  match s with
  | [] => []
  | c :: r =>
      let b := code c in
      if b <? 192 then b :: utf8_decode r
      else
        match r with
        | [] => [b]
        | c1 :: r1 =>
            if b <? 224 then
              ((b - 192) * 64 + (code c1 - 128)) :: utf8_decode r1
            else
              match r1 with
              | [] => [b]
              | c2 :: r2 =>
                  if b <? 240 then
                    ((b - 224) * 4096 + (code c1 - 128) * 64 + (code c2 - 128))
                      :: utf8_decode r2
                  else
                    match r2 with
                    | [] => [b]
                    | c3 :: r3 =>
                        ((b - 240) * 262144 + (code c1 - 128) * 4096
                         + (code c2 - 128) * 64 + (code c3 - 128))
                          :: utf8_decode r3
                    end
              end
        end
  end.

Definition chars (s : string) : list Z := utf8_decode (list_ascii_of_string s).

(** The decimal digits of Unicode 14.0 (category Nd), which are what [\d]
    matches and [int] reads: each entry is the code point of a zero, the
    nine code points after it are the digits one to nine. *)
Definition decimal_zeros : list Z :=
  [48; 1632; 1776; 1984; 2406; 2534; 2662; 2790; 2918; 3046; 3174; 3302;
   3430; 3558; 3664; 3792; 3872; 4160; 4240; 6112; 6160; 6470; 6608; 6784;
   6800; 6992; 7088; 7232; 7248; 42528; 43216; 43264; 43472; 43504; 43600;
   44016; 65296; 66720; 68912; 69734; 69872; 69942; 70096; 70384; 70736;
   70864; 71248; 71360; 71472; 71904; 72016; 72784; 73040; 73120; 92768;
   92864; 93008; 120782; 120792; 120802; 120812; 120822; 123200; 123632;
   125264; 130032].

Definition decimal_value (c : Z) : option Z :=
  match List.find (λ z, (z <=? c) && (c <? z + 10)) decimal_zeros with
  | Some z => Some (c - z)
  | None => None
  end.

(** The characters [\s] matches. *)
Definition is_space (c : Z) : bool :=
  ((9 <=? c) && (c <=? 13)) || ((28 <=? c) && (c <=? 32))
  || (c =? 133) || (c =? 160) || (c =? 5760)
  || ((8192 <=? c) && (c <=? 8202))
  || (c =? 8232) || (c =? 8233) || (c =? 8239) || (c =? 8287) || (c =? 12288).

Definition matcher (A : Type) := list Z → list (A * list Z).

(** A character class [[lo-hi]] of ASCII digits. *)
Definition re_range (lo hi : Z) : matcher Z := λ s,
  match s with
  | c :: r =>
      let d := c - 48 in
      if (lo <=? d) && (d <=? hi) then [(d, r)] else []
  | [] => []
  end.

(** [\d] *)
Definition re_digit : matcher Z := λ s,
  match s with
  | c :: r =>
      match decimal_value c with
      | Some d => [(d, r)]
      | None => []
      end
  | [] => []
  end.

Definition re_lit (a : ascii) : matcher unit := λ s,
  match s with
  | c :: r => if c =? code a then [((), r)] else []
  | [] => []
  end.

Definition re_two (p q : matcher Z) : matcher Z := λ s,
  '(a, r) ← p s; '(b, r') ← q r; [(10 * a + b, r')].

Definition re_alt {A} (ps : list (matcher A)) : matcher A := λ s,
  p ← ps; p s.

(** [\s+], greedy: the longest run first, then the shorter ones. *)
Fixpoint re_spaces (s : list Z) : list (unit * list Z) :=
  match s with
  | c :: r => if is_space c then re_spaces r ++ [((), r)] else []
  | [] => []
  end.

Definition re_Y : matcher Z := λ s,
  '(a, r) ← re_two re_digit re_digit s;
  '(b, r') ← re_two re_digit re_digit r;
  [(100 * a + b, r')].
Definition re_m : matcher Z :=
  re_alt [re_two (re_range 1 1) (re_range 0 2);
          re_two (re_range 0 0) (re_range 1 9);
          re_range 1 9].
Definition re_d : matcher Z :=
  re_alt [re_two (re_range 3 3) (re_range 0 1);
          re_two (re_range 1 2) re_digit;
          re_two (re_range 0 0) (re_range 1 9);
          re_range 1 9;
          (λ s, '(_, r) ← re_lit " " s; re_range 1 9 r)].
Definition re_H : matcher Z :=
  re_alt [re_two (re_range 2 2) (re_range 0 3);
          re_two (re_range 0 1) re_digit;
          re_digit].
Definition re_M : matcher Z :=
  re_alt [re_two (re_range 0 5) re_digit; re_digit].
Definition re_S : matcher Z :=
  re_alt [re_two (re_range 6 6) (re_range 0 1);
          re_two (re_range 0 5) re_digit;
          re_digit].

Definition re_format : matcher datetime := λ s,
  '(y, s) ← re_Y s;
  '(_, s) ← re_lit "-" s;
  '(m, s) ← re_m s;
  '(_, s) ← re_lit "-" s;
  '(d, s) ← re_d s;
  '(_, s) ← re_spaces s;
  '(h, s) ← re_H s;
  '(_, s) ← re_lit ":" s;
  '(mi, s) ← re_M s;
  '(_, s) ← re_lit ":" s;
  '(se, s) ← re_S s;
  [(mkdt y m d h mi se, s)].

Definition strptime (s : string) : result datetime :=
  match re_format (chars s) with
  | (d, []) :: _ => if datetime_ok d then Ok d else Raise ValueError
  | _ => Raise ValueError
  end.

(** *** Printing: [str], [repr] of a list of names, [strftime] *)

Definition pad2 (n : Z) : string :=
  if n <? 10 then "0" +:+ pretty n else pretty n.
Definition pad4 (n : Z) : string :=
  if n <? 10 then "000" +:+ pretty n
  else if n <? 100 then "00" +:+ pretty n
  else if n <? 1000 then "0" +:+ pretty n
  else pretty n.

Definition month_to_second (d : datetime) : string :=
  "-" +:+ pad2 (month d) +:+ "-" +:+ pad2 (day d) +:+ " "
  +:+ pad2 (hour d) +:+ ":" +:+ pad2 (minute d) +:+ ":" +:+ pad2 (second d).

(** [d.strftime("%Y-%m-%d %H:%M:%S")] with the C library of Linux, whose
    [%Y] prints the year as a number, without padding. *)
Definition strftime (d : datetime) : string :=
  pretty (year d) +:+ month_to_second d.

(** [str(d)], which is [d.isoformat(sep=" ")]: the year on four digits. *)
Definition isoformat (d : datetime) : string :=
  pad4 (year d) +:+ month_to_second d.

(** What an f-string prints for a value. *)
Definition str (v : value) : string :=
  match v with
  | VNone => "None"
  | VBool true => "True"
  | VBool false => "False"
  | VInt n => pretty n
  | VStr s => s
  | VDatetime d => isoformat d
  end.

(** [repr] of a list of plain names: [['a', 'b']]. *)
Definition repr_names (l : list string) : string :=
  "[" +:+ String.concat ", " (map (λ s, "'" +:+ s +:+ "'") l) +:+ "]".

(** [s[:n]] *)
Fixpoint slice_to (n : nat) (s : string) : string :=
  match s with
  | EmptyString => EmptyString
  | String c r =>
      if (128 <=? code c) && (code c <? 192) then String c (slice_to n r)
      else
        match n with
        | O => EmptyString
        | S n' => String c (slice_to n' r)
        end
  end.

(** *** Truth, equality and order of values *)

Definition truthy (v : value) : bool :=
  match v with
  | VNone => false
  | VBool b => b
  | VInt n => negb (n =? 0)
  | VStr s => negb (String.eqb s "")
  | VDatetime _ => true
  end.

Definition as_int (v : value) : option Z :=
  match v with
  | VBool b => Some (if b then 1 else 0)
  | VInt n => Some n
  | _ => None
  end.

(** [a == b] *)
Definition eq (a b : value) : bool :=
  match a, b with
  | VNone, VNone => true
  | VStr s, VStr t => String.eqb s t
  | VDatetime d, VDatetime e => to_seconds d =? to_seconds e
  | _, _ =>
      match as_int a, as_int b with
      | Some m, Some n => m =? n
      | _, _ => false
      end
  end.

(** [a < b]: defined inside one family of types, a [TypeError] across
    families and on [None]. *)
Definition lt (a b : value) : result bool :=
  match a, b with
  | VStr s, VStr t => Ok (String.ltb s t)
  | VDatetime d, VDatetime e => Ok (to_seconds d <? to_seconds e)
  | _, _ =>
      match as_int a, as_int b with
      | Some m, Some n => Ok (m <? n)
      | _, _ => Raise TypeError
      end
  end.

(** *** [sorted(l, key=...)] and [l.sort(key=...)]

    The keys are computed first, then the items are ordered with [<] on
    the keys alone; the sort is stable. Every item of a list of two or
    more is compared at least once, so whether a comparison raises does
    not depend on the sorting algorithm when, as here, the values that
    compare form families closed under [<]. *)

Fixpoint insert_by {A} (k : value) (x : A) (l : list (value * A))
  : result (list (value * A)) :=
  match l with
  | [] => Ok [(k, x)]
  | (k', y) :: r =>
      b ← lt k' k;
      if (b : bool) then (r' ← insert_by k x r; Ok ((k', y) :: r'))
      else Ok ((k, x) :: (k', y) :: r)
  end.

Fixpoint sort_keyed {A} (l : list (value * A)) : result (list (value * A)) :=
  match l with
  | [] => Ok []
  | (k, x) :: r => r' ← sort_keyed r; insert_by k x r'
  end.

Definition sorted {A} (key : A → result value) (l : list A) : result (list A) :=
  ks ← mapM (λ x, k ← key x; Ok (k, x)) l;
  r ← sort_keyed ks;
  Ok (map snd r).

End Py.

(** ** [src/analysis/anomaly_analysis.py] *)

Module AnomalyAnalysis.
Import Py.

(** [evidence_data]: source name to evidence list, in insertion order
    (the loader inserts SMS, CALL, MEDIA, APP, each once). *)
Abbreviation evidence_dict := (list (string * list record)).

(** [datetime.strptime] applied to a value: text is parsed, anything else
    is a [TypeError]. *)
Definition strptime_value (v : value) : result datetime :=
  match v with
  | VStr s => strptime s
  | _ => Raise TypeError
  end.

(** The body of the inner loop of [normalize_timestamps]: the [try] block
    and its [except (ValueError, KeyError)] handler, on a copy of the
    record. *)
Definition normalize_record (evidence : record) : result record :=
  match (timestamp_str ← getitem evidence "timestamp";
         strptime_value timestamp_str) with
  | Ok parsed_timestamp =>
      Ok (<["timestamp_valid" := VBool true]>
            (<["parsed_timestamp" := VDatetime parsed_timestamp]> evidence))
  | Raise ValueError | Raise KeyError =>
      Ok (<["parsed_timestamp" := VNone]>
            (<["timestamp_valid" := VBool false]> evidence))
  | Raise e => Raise e
  end.

Definition normalize_timestamps (evidence_data : evidence_dict)
  : result evidence_dict :=
  mapM (λ '(source_type, evidence_list),
          normalized_evidence ← mapM normalize_record evidence_list;
          Ok (source_type, normalized_evidence))
       evidence_data.

(** An anomaly; [now] is the wall clock read when it is built. *)
Definition anomaly (now : datetime) (source_type type details : string) : record :=
  {[ "timestamp" := VStr (strftime now);
     "source" := VStr source_type;
     "type" := VStr type;
     "details" := VStr details ]}.

(** [a - b] on values, then [.total_seconds()] and [.days]. *)
Definition sub_value (a b : value) : result timedelta :=
  match a, b with
  | VDatetime d, VDatetime e => Ok (datetime_sub d e)
  | _, _ =>
      match as_int a, as_int b with
      | Some _, Some _ => Raise AttributeError
      | _, _ => Raise TypeError
      end
  end.

Definition GAP_THRESHOLD_HOURS : Z := 24.

(** The body of the loop over [range(1, len(valid_evidence))]. *)
Definition gap_check (now : datetime) (source_type : string)
    (prev_event curr_event : record) : result (list record) :=
  c ← getitem curr_event "parsed_timestamp";
  p ← getitem prev_event "parsed_timestamp";
  time_diff ← sub_value c p;
  if total_seconds time_diff >? GAP_THRESHOLD_HOURS * 3600 then
    pt ← getitem prev_event "timestamp";
    ct ← getitem curr_event "timestamp";
    Ok [anomaly now source_type "timestamp_gap"
          ("Gap of " +:+ pretty (days time_diff) +:+ " days detected between "
           +:+ str pt +:+ " and " +:+ str ct)]
  else Ok [].

Fixpoint gap_scan (now : datetime) (source_type : string)
    (valid_evidence : list record) : result (list record) :=
  match valid_evidence with
  | prev_event :: ((curr_event :: _) as rest) =>
      a ← gap_check now source_type prev_event curr_event;
      r ← gap_scan now source_type rest;
      Ok (a ++ r)
  | _ => Ok []
  end.

Definition timestamp_valid (e : record) : bool :=
  truthy (get e "timestamp_valid" (VBool false)).

(** One round of the loop over the sources. The list that is sorted is the
    fresh list built by the comprehension. *)
Definition gaps_of_source (now : datetime) (source_type : string)
    (evidence_list : list record) : result (list record) :=
  let valid_evidence := List.filter timestamp_valid evidence_list in
  if (length valid_evidence <? 2)%nat then Ok []
  else
    valid_evidence ← sorted (λ x, getitem x "parsed_timestamp") valid_evidence;
    gap_scan now source_type valid_evidence.

Definition detect_timestamp_gaps (now : datetime) (evidence_data : evidence_dict)
  : result (list record) :=
  rs ← mapM (λ '(source_type, evidence_list),
               gaps_of_source now source_type evidence_list) evidence_data;
  Ok (concat rs).

(** *** [detect_post_deletion_activity] *)

Definition is_deletion (evidence : record) : bool :=
  eq (get evidence "type" VNone) (VStr "deleted")
  && truthy (get evidence "timestamp_valid" VNone).

(** The condition of the innermost [if], with the short circuit of [and]. *)
Definition after_deletion (deletion_time : value) (evidence : record)
  : result bool :=
  if truthy (get evidence "timestamp_valid" VNone) then
    t ← getitem evidence "parsed_timestamp";
    later ← lt deletion_time t;
    Ok (later && negb (eq (get evidence "type" VNone) (VStr "deleted")))
  else Ok false.

Definition strftime_value (v : value) : result string :=
  match v with
  | VDatetime d => Ok (strftime d)
  | _ => Raise AttributeError
  end.

(** The body of the loop over [deletion_timestamps]. *)
Definition deletion_check (now : datetime) (source_type : string)
    (evidence_list : list record) (deletion_time : value)
  : result (list record) :=
  flags ← mapM (after_deletion deletion_time) evidence_list;
  let post_deletion_activity := List.filter (λ b : bool, b) flags in
  match post_deletion_activity with
  | [] => Ok []
  | _ :: _ =>
      at_time ← strftime_value deletion_time;
      Ok [anomaly now source_type "post_deletion_activity"
            (pretty (Z.of_nat (length post_deletion_activity))
             +:+ " events detected after deletion at " +:+ at_time)]
  end.

(** One round of the loop over the sources. [evidence_list.sort] sorts the
    list held by [evidence_data] itself: the round returns that list as
    the sort leaves it, next to the anomalies. A record without the key
    [parsed_timestamp] sorts as [datetime.min]; a record that has
    the key sorts by the value stored under it. *)
Definition deletions_of_source (now : datetime) (source_type : string)
    (evidence_list : list record) : result (list record * list record) :=
  evidence_list ←
    sorted (λ x, Ok (get x "parsed_timestamp" (VDatetime datetime_min)))
           evidence_list;
  deletion_timestamps ←
    mapM (λ evidence, getitem evidence "parsed_timestamp")
         (List.filter is_deletion evidence_list);
  rs ← mapM (deletion_check now source_type evidence_list) deletion_timestamps;
  Ok (concat rs, evidence_list).

(** Returns the anomalies and [evidence_data] as the call leaves it. *)
Definition detect_post_deletion_activity (now : datetime)
    (evidence_data : evidence_dict) : result (list record * evidence_dict) :=
  rs ← mapM (λ '(source_type, evidence_list),
               '(a, l) ← deletions_of_source now source_type evidence_list;
               Ok (a, (source_type, l))) evidence_data;
  Ok (concat (map fst rs), map snd rs).

(** *** [detect_temporal_inconsistencies] *)

Definition future_check (now : datetime) (source_type : string)
    (evidence : record) : result (list record) :=
  event_time ← getitem evidence "parsed_timestamp";
  future ← lt (VDatetime now) event_time;
  if (future : bool) then
    ts ← getitem evidence "timestamp";
    Ok [anomaly now source_type "future_timestamp"
          ("Event timestamp " +:+ str ts +:+ " is in the future")]
  else Ok [].

Definition detect_temporal_inconsistencies (now : datetime)
    (evidence_data : evidence_dict) : result (list record) :=
  rs ← mapM (λ '(source_type, evidence_list),
               a ← mapM (future_check now source_type)
                        (List.filter timestamp_valid evidence_list);
               Ok (concat a)) evidence_data;
  Ok (concat rs).

(** *** [detect_data_inconsistencies] *)

Definition signature (evidence : record) : string :=
  str (get evidence "timestamp" (VStr "")) +:+ "_"
  +:+ str (get evidence "type" (VStr "")) +:+ "_"
  +:+ str (get evidence "details" (VStr "")).

(** A [Counter]: the keys in the order of their first insertion. *)
Fixpoint counter_incr (k : string) (c : list (string * Z)) : list (string * Z) :=
  match c with
  | [] => [(k, 1)]
  | (k', n) :: r =>
      if String.eqb k k' then (k', n + 1) :: r else (k', n) :: counter_incr k r
  end.

Definition count_signatures (evidence_list : list record) : list (string * Z) :=
  fold_left (λ c evidence, counter_incr (signature evidence) c) evidence_list [].

Definition required_fields : list string :=
  ["timestamp"; "source"; "type"; "details"].

Definition missing_fields (evidence : record) : list string :=
  List.filter (λ field, bool_decide (evidence !! field = None)) required_fields.

Definition missing_check (now : datetime) (source_type : string)
    (evidence : record) : list record :=
  match missing_fields evidence with
  | [] => []
  | fields =>
      [anomaly now source_type "missing_fields"
         ("Missing required fields: " +:+ repr_names fields +:+ " in event "
          +:+ str (get evidence "timestamp" (VStr "unknown")))]
  end.

Definition duplicate_check (now : datetime) (source_type : string)
    (entry : string * Z) : list record :=
  let '(signature, count) := entry in
  if count >? 1 then
    [anomaly now source_type "duplicate_event"
       ("Duplicate event detected " +:+ pretty count +:+ " times: "
        +:+ slice_to 50 signature +:+ "...")]
  else [].

Definition inconsistencies_of_source (now : datetime) (source_type : string)
    (evidence_list : list record) : list record :=
  concat (map (missing_check now source_type) evidence_list)
  ++ concat (map (duplicate_check now source_type)
                 (count_signatures evidence_list)).

Definition detect_data_inconsistencies (now : datetime)
    (evidence_data : evidence_dict) : list record :=
  concat (map (λ '(source_type, evidence_list),
                 inconsistencies_of_source now source_type evidence_list)
              evidence_data).

(** *** [calculate_anomaly_severity] *)

Definition severity_weights : gmap string string :=
  {[ "future_timestamp" := "CRITICAL";
     "post_deletion_activity" := "HIGH";
     "timestamp_gap" := "MEDIUM";
     "duplicate_event" := "LOW";
     "missing_fields" := "MEDIUM" ]}.

(** [severity_weights.get(anomaly.get("type", "unknown"), "LOW")] *)
Definition severity_of (anomaly : record) : string :=
  match get anomaly "type" (VStr "unknown") with
  | VStr anomaly_type => default "LOW" (severity_weights !! anomaly_type)
  | _ => "LOW"
  end.

Definition bump (severity : string) (severity_scores : gmap string Z)
  : gmap string Z :=
  <[severity := default 0 (severity_scores !! severity) + 1]> severity_scores.

Definition tally (anomalies : list record) : gmap string Z :=
  fold_left (λ severity_scores anomaly, bump (severity_of anomaly) severity_scores)
    anomalies
    {[ "CRITICAL" := 0; "HIGH" := 0; "MEDIUM" := 0; "LOW" := 0 ]}.

Record severity_assessment := {
  severity_distribution : gmap string Z;
  total_anomalies : Z;
  critical_anomalies : Z;
  high_anomalies : Z }.

Definition calculate_anomaly_severity (anomalies : list record)
  : severity_assessment :=
  let severity_scores := tally anomalies in
  {| severity_distribution := severity_scores;
     total_anomalies := Z.of_nat (length anomalies);
     critical_anomalies := default 0 (severity_scores !! "CRITICAL");
     high_anomalies := default 0 (severity_scores !! "HIGH") |}.

(** *** The rule battery as [main] runs it

    The four detectors read the same [normalized_data]; the lists the
    second one leaves behind are the ones the third and fourth read. *)
Definition run_battery (now : datetime) (evidence_data : evidence_dict)
  : result (list record) :=
  normalized_data ← normalize_timestamps evidence_data;
  gap_anomalies ← detect_timestamp_gaps now normalized_data;
  '(deletion_anomalies, normalized_data) ←
    detect_post_deletion_activity now normalized_data;
  temporal_anomalies ← detect_temporal_inconsistencies now normalized_data;
  let data_anomalies := detect_data_inconsistencies now normalized_data in
  Ok (gap_anomalies ++ deletion_anomalies ++ temporal_anomalies ++ data_anomalies).

(** *** [save_anomaly_report]

    The file system is a map from paths to contents. [json.dump] writes
    the report chunk by chunk; what the operating system does with the
    [open] and with each [write] is the outcome of the call. *)
Inductive outcome :=
| OpenFails (e : string)
| WriteFails (n : nat) (e : string)
| Written.

Section Save.
Context {report : Type}.
(** The chunks [json.dump(report, f, indent=2)] writes, in order. *)
Variable json_chunks : report → list string.

Definition dump (written : list string) : string :=
  fold_right String.append "" written.

(** How a block of statements ends: normally, or by an exception, here
    with its message. *)
Inductive ending :=
| Normal
| Raised (e : string).

(** The body of the [try]: the [with] block and the [print] after it.
    Returns how the body ends, the lines it printed and the file system it
    leaves. [open(..., 'w')] empties the file before anything is written. *)
Definition write_report (r : report) (output_file : string)
    (o : outcome) (fs : gmap string string)
  : ending * list string * gmap string string :=
  match o with
  | OpenFails e => (Raised e, [], fs)
  | WriteFails n e =>
      if (n <? length (json_chunks r))%nat then
        (Raised e, [], <[output_file := dump (take n (json_chunks r))]> fs)
      else
        (Normal, ["Anomaly analysis report saved to: " +:+ output_file],
         <[output_file := dump (json_chunks r)]> fs)
  | Written =>
      (Normal, ["Anomaly analysis report saved to: " +:+ output_file],
       <[output_file := dump (json_chunks r)]> fs)
  end.

(** The [try] with its handler, [except Exception as e: print(...)]. *)
Definition save_anomaly_report (r : report) (output_file : string)
    (o : outcome) (fs : gmap string string)
  : ending * list string * gmap string string :=
  match write_report r output_file o fs with
  | (Raised e, printed, fs') =>
      (Normal, printed ++ ["Error saving anomaly report: " +:+ e], fs')
  | (Normal, printed, fs') => (Normal, printed, fs')
  end.
End Save.

End AnomalyAnalysis.

(** ** [src/timeline/timeline_builder.py] *)

Module TimelineBuilder.
Import Py.

Definition evidence_files : list (string * string) :=
  [("../evidence/processed/sms.json", "SMS");
   ("../evidence/processed/calls.json", "CALL");
   ("../evidence/processed/media.json", "MEDIA");
   ("../evidence/processed/apps.json", "APP")].

(** [sorted(events, key=lambda x: x.get('timestamp', ''))] inside the
    [try]; the handler returns the events as they came. *)
Definition sort_events_chronologically (events : list record) : list record :=
  match sorted (λ x, Ok (get x "timestamp" (VStr ""))) events with
  | Ok sorted_events => sorted_events
  | Raise _ => events
  end.

(** "Add source if not present" *)
Definition add_source (source : string) (event : record) : record :=
  match event !! "source" with
  | None => <["source" := VStr source]> event
  | Some _ => event
  end.

Section Build.
(** What [json.load] yields for a path: [None] when the file is absent,
    unreadable or not JSON, in which case the source is skipped. *)
Variable load : string → option (list record).

Definition events_of (evidence_file : string * string) : list record :=
  match load evidence_file.1 with
  | Some events => map (add_source evidence_file.2) events
  | None => []
  end.

Definition all_events : list record :=
  concat (map events_of evidence_files).

(** [event["timeline_order"] = i + 1] over [enumerate(sorted_events)] *)
Definition number (sorted_events : list record) : list record :=
  imap (λ i event, <["timeline_order" := VInt (Z.of_nat i + 1)]> event)
       sorted_events.

(** The list handed to [json.dump]. *)
Definition build_unified_timeline : list record :=
  number (sort_events_chronologically all_events).
End Build.

End TimelineBuilder.

(** * [generate_anomaly_report] of [src/analysis/anomaly_analysis.py] *)

Module Report.
Import Py AnomalyAnalysis.

(** [d[k] += 1] on a [defaultdict(int)] keyed by values: the keys in the
    order of their first insertion, two keys being the same key when they
    are equal with [==]. *)
Fixpoint count_key (k : value) (d : list (value * Z)) : list (value * Z) :=
  match d with
  | [] => [(k, 0 + 1)]
  | (k', n) :: r =>
      if eq k' k then (k', n + 1) :: r else (k', n) :: count_key k r
  end.

Record report := {
  analysis_timestamp : string;
  analysis_type : string;
  severity : severity_assessment;  (* the key [severity_assessment] *)
  total_anomalies : Z;
  anomalies_by_type : list (value * Z);
  anomalies_by_source : list (value * Z);
  findings : list record }.

(** The loop "Categorize anomalies", on the two counters of the report. *)
Fixpoint categorize (anomalies : list record)
    (by_type by_source : list (value * Z))
  : result (list (value * Z) * list (value * Z)) :=
  match anomalies with
  | [] => Ok (by_type, by_source)
  | anomaly :: rest =>
      t ← getitem anomaly "type";
      let by_type := count_key t by_type in
      s ← getitem anomaly "source";
      let by_source := count_key s by_source in
      categorize rest by_type by_source
  end.

Definition generate_anomaly_report (now : datetime) (anomalies : list record)
    (severity_assessment : severity_assessment) : result report :=
  '(by_type, by_source) ← categorize anomalies [] [];
  Ok {| analysis_timestamp := strftime now;
        analysis_type := "anomaly_analysis";
        severity := severity_assessment;
        total_anomalies := Z.of_nat (length anomalies);
        anomalies_by_type := by_type;
        anomalies_by_source := by_source;
        findings := anomalies |}.

End Report.

(** * Properties *)

Import Py.

(** Closes an equation between closed terms by evaluating both sides. *)
Ltac evaluate :=
  lazymatch goal with
  | |- _ = ?rhs => vm_cast_no_check (@eq_refl _ rhs)
  end.

(** What the normalizer makes of a record whose timestamp parses to [d],
    and of a record whose timestamp does not parse. *)
Definition tagged_valid (evidence : record) (d : datetime) : record :=
  <["timestamp_valid" := VBool true]>
    (<["parsed_timestamp" := VDatetime d]> evidence).
Definition tagged_invalid (evidence : record) : record :=
  <["parsed_timestamp" := VNone]>
    (<["timestamp_valid" := VBool false]> evidence).

(** ** The exception monad *)

Section ResultMonad.
Context {A B : Type}.
Implicit Types (f : A → result B) (l : list A) (k : list B).

Lemma mapM_Ok_cons f x l :
  mapM f (x :: l) = y ← f x; r ← mapM f l; Ok (y :: r).
Proof. reflexivity. Qed.

Lemma mapM_Ok_Forall2 f l k :
  mapM f l = Ok k ↔ Forall2 (λ x y, f x = Ok y) l k.
Proof.
  revert k. induction l as [|x l IH]; intros k.
  - split.
    + intros [= <-]. constructor.
    + intros H. inversion H. reflexivity.
  - rewrite mapM_Ok_cons. split.
    + destruct (f x) as [y|e] eqn:Hx; [|discriminate]. cbn.
      destruct (mapM f l) as [r|e] eqn:Hl; [|discriminate]. cbn.
      intros [= <-]. constructor; [done|]. by apply IH.
    + intros H. inversion H as [|? y ? r Hx Hr]; subst.
      rewrite Hx. cbn. apply IH in Hr. by rewrite Hr.
Qed.

Lemma mapM_Ok_length f l k : mapM f l = Ok k → length k = length l.
Proof. intros H%mapM_Ok_Forall2. symmetry. by eapply Forall2_length. Qed.

Lemma mapM_Ok_pure f (g : A → B) l :
  Forall (λ x, f x = Ok (g x)) l → mapM f l = Ok (map g l).
Proof.
  intros H. apply mapM_Ok_Forall2.
  induction H; constructor; auto.
Qed.

Lemma mapM_Raise f l x e :
  x ∈ l → (∀ y, y ∈ l → f y = Raise e ∨ ∃ z, f y = Ok z) → f x = Raise e →
  mapM f l = Raise e.
Proof.
  induction l as [|y l IH]; intros Hin Hall Hx; [by inversion Hin|].
  rewrite mapM_Ok_cons.
  destruct (Hall y) as [->|[z Hz]]; [left| reflexivity |].
  rewrite Hz. cbn.
  apply elem_of_cons in Hin as [->|Hin]; [congruence|].
  rewrite IH; auto. intros; apply Hall. by right.
Qed.
End ResultMonad.

(** ** [sorted]: a stable sort when the keys compare, a [TypeError] when
       one of them is [None] *)

Section Sorting.
Context {A : Type}.
(** A family of values closed under [<]: [ltb] is what [<] computes on it. *)
Variable fam : value → Prop.
Variable ltb : value → value → bool.
Hypothesis lt_fam : ∀ a b, fam a → fam b → lt a b = Ok (ltb a b).
Hypothesis ltb_asym : ∀ a b, fam a → fam b → ltb a b = true → ltb b a = false.
Hypothesis ltb_trans : ∀ a b c, fam a → fam b → fam c →
  ltb b a = false → ltb c b = false → ltb c a = false.

Implicit Types (d : list (value * A)) (k : value) (x : A).

(** [p] may stand before [q]. *)
Definition key_le (p q : value * A) : Prop := ltb q.1 p.1 = false.

Lemma insert_by_split k x d :
  fam k → Forall (λ p, fam p.1) d →
  ∃ d1 d2, d = d1 ++ d2
    ∧ insert_by k x d = Ok (d1 ++ (k, x) :: d2)
    ∧ Forall (λ p, ltb p.1 k = true) d1
    ∧ match d2 with [] => True | q :: _ => ltb q.1 k = false end.
Proof.
  intros Hk. induction 1 as [|[k' y] d Hk' Hd IH].
  - exists [], []. cbn. auto.
  - cbn in Hk'. cbn [insert_by]. rewrite (lt_fam k' k) by done. cbn.
    destruct (ltb k' k) eqn:Hlt.
    + destruct IH as (d1 & d2 & -> & -> & H1 & H2).
      exists ((k', y) :: d1), d2. cbn. repeat split; auto.
    + exists [], ((k', y) :: d). cbn. auto.
Qed.

Lemma sort_keyed_spec d :
  Forall (λ p, fam p.1) d →
  ∃ r, sort_keyed d = Ok r
    ∧ Permutation r d
    ∧ StronglySorted key_le r
    ∧ ∀ P : value → bool, (∀ a b, P a = true → ltb b a = true → P b = false) →
        List.filter (λ p, P p.1) r = List.filter (λ p, P p.1) d.
Proof.
  induction 1 as [|[k x] d Hk Hd (r & Hr & Hperm & Hsorted & Hstable)].
  - exists []. repeat split; auto. constructor.
  - cbn in Hk. cbn [sort_keyed]. rewrite Hr. cbn.
    assert (Forall (λ p, fam p.1) r) as Hfam.
    { by rewrite Hperm. }
    destruct (insert_by_split k x r Hk Hfam) as (d1 & d2 & -> & -> & H1 & H2).
    eexists. split; [reflexivity|]. split; [|split].
    + rewrite <- Permutation_middle. by constructor.
    + apply Forall_app in Hfam as [Hf1 Hf2].
      apply StronglySorted_app in Hsorted as (Hcross & Hs1 & Hs2).
      rewrite Forall_forall in H1, Hf1, Hf2.
      apply StronglySorted_app. split; [|split]; [|done|].
      * intros p q Hp [->|Hq]%elem_of_cons; [|by apply Hcross].
        unfold key_le. cbn. apply ltb_asym; auto.
      * apply StronglySorted_cons. split; [|done].
        destruct d2 as [|q d2]; [constructor|].
        apply StronglySorted_cons in Hs2 as [Hq _].
        rewrite Forall_forall in Hq.
        constructor; [exact H2|].
        apply Forall_forall. intros p Hp. unfold key_le in *. cbn.
        apply (ltb_trans k q.1 p.1); auto.
        -- apply Hf2. by left.
        -- apply Hf2. by right.
    + intros P HP. specialize (Hstable P HP).
      rewrite List.filter_app in Hstable.
      rewrite List.filter_app. cbn [List.filter fst].
      rewrite <- Hstable.
      destruct (P k) eqn:HPk; [|done].
      assert (List.filter (λ p, P p.1) d1 = []) as ->; [|done].
      clear -H1 HP HPk. induction d1 as [|p d1 IH]; [done|].
      apply Forall_cons in H1 as [Hp H1]. cbn.
      rewrite (HP k p.1) by done. auto.
Qed.

Lemma sorted_spec (key : A → result value) (kf : A → value) (l : list A) :
  Forall (λ x, key x = Ok (kf x) ∧ fam (kf x)) l →
  ∃ r, sorted key l = Ok r
    ∧ Permutation r l
    ∧ StronglySorted (λ x y, ltb (kf y) (kf x) = false) r
    ∧ ∀ P : value → bool, (∀ a b, P a = true → ltb b a = true → P b = false) →
        List.filter (λ x, P (kf x)) r = List.filter (λ x, P (kf x)) l.
Proof.
  intros Hl. unfold sorted.
  rewrite (mapM_Ok_pure _ (λ x, (kf x, x))); cycle 1.
  { eapply Forall_impl; [exact Hl|]. intros x [-> _]. done. }
  cbn.
  destruct (sort_keyed_spec (map (λ x, (kf x, x)) l))
    as (r & -> & Hperm & Hsorted & Hstable).
  { apply Forall_map. eapply Forall_impl; [exact Hl|]. by intros x [_ ?]. }
  cbn. exists (map snd r).
  assert (Forall (λ p : value * A, p.1 = kf p.2) r) as Hdec.
  { rewrite Hperm. apply Forall_map. by apply Forall_forall. }
  assert (∀ l' : list A, map snd (map (λ x, (kf x, x)) l') = l') as Hsnd.
  { intros l'. rewrite map_map. cbn. apply map_id. }
  split; [done|]. split; [|split].
  - rewrite <- (Hsnd l). by apply Permutation_map.
  - clear -Hsorted Hdec. induction Hsorted as [|p r Hs IH Hall]; cbn.
    + constructor.
    + apply Forall_cons in Hdec as [Hp Hdec].
      constructor; [auto|].
      apply Forall_map. rewrite Forall_forall in Hall, Hdec.
      apply Forall_forall. intros q Hq.
      specialize (Hall q Hq). unfold key_le in Hall.
      cbn. by rewrite <- Hp, <- (Hdec q Hq).
  - intros P HP. specialize (Hstable P HP).
    assert (∀ r' : list (value * A), Forall (λ p, p.1 = kf p.2) r' →
              List.filter (λ x, P (kf x)) (map snd r')
              = map snd (List.filter (λ p, P p.1) r')) as Hcomm.
    { induction 1 as [|p r' Hp Hr' IH]; [done|]. cbn.
      rewrite <- Hp. destruct (P p.1); cbn; by rewrite IH. }
    rewrite Hcomm by done. rewrite Hstable.
    rewrite <- Hcomm by (apply Forall_map; by apply Forall_forall).
    by rewrite Hsnd.
Qed.
End Sorting.

(** Without any assumption on the keys: a sort that returns, returns a
    permutation. *)
Section SortingAny.
Context {A : Type}.
Implicit Types (d : list (value * A)) (k : value) (x : A).

Lemma insert_by_Permutation k x d r :
  insert_by k x d = Ok r → Permutation r ((k, x) :: d).
Proof.
  revert r. induction d as [|[k' y] d IH]; intros r; cbn.
  - by intros [= <-].
  - destruct (lt k' k) as [[]|]; cbn; [| by intros [= <-] | done].
    destruct (insert_by k x d) as [r'|]; cbn; [|done].
    intros [= <-]. rewrite (IH r' eq_refl). apply perm_swap.
Qed.

Lemma sort_keyed_Permutation d r : sort_keyed d = Ok r → Permutation r d.
Proof.
  revert r. induction d as [|[k x] d IH]; intros r; cbn.
  - by intros [= <-].
  - destruct (sort_keyed d) as [r'|]; cbn; [|done].
    intros H%insert_by_Permutation. rewrite H. constructor. by apply IH.
Qed.

End SortingAny.

(** The two families of keys the program sorts by. *)

Definition is_text (v : value) : Prop := ∃ s, v = VStr s.
Definition is_instant (v : value) : Prop := ∃ d, v = VDatetime d.

Definition text_of (v : value) : string :=
  match v with VStr s => s | _ => "" end.
Definition seconds_of (v : value) : Z :=
  match v with VDatetime d => to_seconds d | _ => 0 end.

Definition text_ltb (a b : value) : bool := String.ltb (text_of a) (text_of b).
Definition instant_ltb (a b : value) : bool := seconds_of a <? seconds_of b.

Lemma string_ltb_leb (s t : string) : String.ltb t s = negb (String.leb s t).
Proof.
  unfold String.ltb, String.leb. rewrite (String.compare_antisym s t).
  by destruct (String.compare t s).
Qed.

Lemma text_ltb_false (a b : value) :
  text_ltb b a = false ↔ String.le (text_of a) (text_of b).
Proof.
  unfold text_ltb, String.le. rewrite string_ltb_leb.
  destruct (String.leb _ _); cbn; naive_solver.
Qed.

Lemma lt_text a b : is_text a → is_text b → lt a b = Ok (text_ltb a b).
Proof. by intros [s ->] [t ->]. Qed.

Lemma text_ltb_asym a b : text_ltb a b = true → text_ltb b a = false.
Proof.
  intros H. apply text_ltb_false.
  destruct (total String.le (text_of a) (text_of b)) as [|Hle]; [done|].
  apply text_ltb_false in Hle. congruence.
Qed.

Lemma text_ltb_trans a b c :
  text_ltb b a = false → text_ltb c b = false → text_ltb c a = false.
Proof. rewrite !text_ltb_false. intros. by etrans. Qed.

Lemma lt_instant a b : is_instant a → is_instant b → lt a b = Ok (instant_ltb a b).
Proof. by intros [s ->] [t ->]. Qed.

Lemma instant_ltb_asym a b : instant_ltb a b = true → instant_ltb b a = false.
Proof. unfold instant_ltb. lia. Qed.

Lemma instant_ltb_trans a b c :
  instant_ltb b a = false → instant_ltb c b = false → instant_ltb c a = false.
Proof. unfold instant_ltb. lia. Qed.

(** ** The timeline merger *)

Section Timeline.
Import TimelineBuilder.
Variable load : string → option (list record).

(** The text the merger sorts an event by. *)
Definition sort_key (event : record) : string :=
  text_of (get event "timestamp" (VStr "")).

(** The timestamp of an event, if it has one, is text. *)
Definition text_timestamp (event : record) : Prop :=
  ∀ v, event !! "timestamp" = Some v → is_text v.



Lemma lookup_number events i event :
  number events !! i = Some event →
  ∃ e, events !! i = Some e
     ∧ event = <["timeline_order" := VInt (Z.of_nat i + 1)]> e.
Proof.
  unfold number. rewrite list_lookup_imap.
  destruct (events !! i) as [e|]; [|done]. intros [= <-]. eauto.
Qed.

End Timeline.

Lemma StronglySorted_lookup {A} (R : A → A → Prop) (l : list A) i j a b :
  StronglySorted R l → (i < j)%nat → l !! i = Some a → l !! j = Some b → R a b.
Proof.
  intros Hs. revert i j. induction Hs as [|x l Hs IH Hall]; intros i j Hij Hi Hj.
  - by rewrite lookup_nil in Hi.
  - destruct j as [|j]; [lia|]. cbn in Hj. destruct i as [|i]; cbn in Hi.
    + injection Hi as <-. rewrite Forall_forall in Hall.
      apply Hall. by eapply list_elem_of_lookup_2.
    + apply (IH i j); [lia|done..].
Qed.

Lemma StronglySorted_weaken {A} (R S : A → A → Prop) (l : list A) :
  (∀ a b, R a b → S a b) → StronglySorted R l → StronglySorted S l.
Proof.
  intros HRS. induction 1 as [|x l Hs IH Hall]; constructor; [done|].
  eapply Forall_impl; [exact Hall|]. auto.
Qed.

Section TimelineOrder.
Import TimelineBuilder.
Variable load : string → option (list record).

Lemma sort_key_number_insert (n : Z) (event : record) :
  sort_key (<["timeline_order" := VInt n]> event) = sort_key event.
Proof. unfold sort_key, get. by rewrite lookup_insert_ne. Qed.

Lemma text_timestamp_add_source source event :
  text_timestamp event → text_timestamp (add_source source event).
Proof.
  unfold add_source, text_timestamp. intros H v.
  destruct (event !! "source"); [apply H|].
  rewrite lookup_insert_ne by done. apply H.
Qed.

Lemma text_timestamp_all_events :
  (∀ file events, load file = Some events → Forall text_timestamp events) →
  Forall text_timestamp (all_events load).
Proof.
  intros Hload. unfold all_events.
  induction evidence_files as [|f fs IH]; cbn; [constructor|].
  apply Forall_app. split; [|done].
  unfold events_of. destruct (load f.1) as [events|] eqn:Hf; [|constructor].
  apply Forall_map. eapply Forall_impl; [by eapply Hload|].
  intros event. apply text_timestamp_add_source.
Qed.

Lemma text_timestamp_key event :
  text_timestamp event → is_text (get event "timestamp" (VStr "")).
Proof.
  unfold text_timestamp, get. intros H.
  destruct (event !! "timestamp") as [v|]; cbn; [by apply H|by eexists].
Qed.

(** On events whose timestamps are text the merger's sort returns: a
    stable sort by that text. *)
Lemma sort_events_spec events :
  Forall text_timestamp events →
  let sorted_events := sort_events_chronologically events in
  Permutation sorted_events events
  ∧ StronglySorted (λ a b, String.le (sort_key a) (sort_key b)) sorted_events
  ∧ ∀ k, List.filter (λ e, String.eqb (sort_key e) k) sorted_events
         = List.filter (λ e, String.eqb (sort_key e) k) events.
Proof.
  intros Hev. unfold sort_events_chronologically.
  destruct (sorted_spec (A:=record) is_text text_ltb lt_text
              (λ a b _ _, text_ltb_asym a b)
              (λ a b c _ _ _, text_ltb_trans a b c)
              (λ x, Ok (get x "timestamp" (VStr "")))
              (λ x, get x "timestamp" (VStr "")) events)
    as (r & -> & Hperm & Hsorted & Hstable).
  { eapply Forall_impl; [exact Hev|]. intros event H.
    split; [done|]. by apply text_timestamp_key. }
  cbn. split; [done|]. split.
  - eapply StronglySorted_weaken; [|exact Hsorted].
    intros a b H. by apply text_ltb_false in H.
  - intros k. apply (Hstable (λ v, String.eqb (text_of v) k)).
    intros a b Ha Hb. apply String.eqb_eq in Ha. subst k.
    apply String.eqb_neq. intros Heq.
    unfold text_ltb in Hb. rewrite Heq in Hb.
    rewrite string_ltb_leb in Hb.
    assert (String.le (text_of a) (text_of a)) as Hrefl by done.
    unfold String.le in Hrefl. by destruct (String.leb _ _).
Qed.
End TimelineOrder.

(** What the normalizer makes of an event's timestamp: the instant, or
    nothing when the timestamp is missing or does not parse. *)
Definition instant_of (event : record) : option datetime :=
  match AnomalyAnalysis.normalize_record event with
  | Ok r =>
      match r !! "parsed_timestamp" with
      | Some (VDatetime d) => Some d
      | _ => None
      end
  | Raise _ => None
  end.

(** The ordering invariant in the words of the specification: events with
    an instant come in ascending order, before every event without one. *)
Definition chronological (timeline : list record) : Prop :=
  ∀ i j a b, (i < j)%nat → timeline !! i = Some a → timeline !! j = Some b →
    match instant_of a, instant_of b with
    | Some x, Some y => to_seconds x ≤ to_seconds y
    | None, Some _ => False
    | _, None => True
    end.

Section TimelineClaims.
Import TimelineBuilder.

Definition event (timestamp : option string) (type details : string) : record :=
  let e : record := {[ "type" := VStr type; "details" := VStr details ]} in
  match timestamp with
  | Some t => <["timestamp" := VStr t]> e
  | None => e
  end.

(** One SMS file: a dated message, then a message that carries no timestamp. *)
Definition sms_with_undated (file : string) : option (list record) :=
  if String.eqb file "../evidence/processed/sms.json" then
    Some [event (Some "2023-06-01 14:22:03") "incoming" "hello";
          event None "incoming" "undated"]
  else None.

(** C1, as stated, fails: the merger puts the event without a timestamp
    first, so a dated event follows an undated one. *)
Lemma undated_event_sorts_first :
  ¬ chronological (build_unified_timeline sms_with_undated).
Proof.
  intros H.
  set (a := <["timeline_order" := VInt 1]>
              (<["source" := VStr "SMS"]> (event None "incoming" "undated"))).
  set (b := <["timeline_order" := VInt 2]>
              (<["source" := VStr "SMS"]>
                 (event (Some "2023-06-01 14:22:03") "incoming" "hello"))).
  assert (build_unified_timeline sms_with_undated !! 0%nat = Some a) as Ha
    by evaluate.
  assert (build_unified_timeline sms_with_undated !! 1%nat = Some b) as Hb
    by evaluate.
  assert (instant_of a = None) as Hia by evaluate.
  assert (instant_of b = Some (mkdt 2023 6 1 14 22 3)) as Hib by evaluate.
  specialize (H 0%nat 1%nat a b ltac:(lia) Ha Hb).
  by rewrite Hia, Hib in H.
Qed.

(** C1, amended: when the timestamps that are present are text, the merged
    timeline is the stable sort of the concatenated events by the raw
    timestamp text, an absent timestamp counting as the empty text (hence
    first); nothing is dropped and events with equal text keep their
    insertion order. *)
Theorem timeline_sorted_by_timestamp_text (load : string → option (list record)) :
  (∀ file events, load file = Some events → Forall text_timestamp events) →
  ∃ sorted_events,
    build_unified_timeline load = number sorted_events
    ∧ Permutation sorted_events (all_events load)
    ∧ (∀ i j a b, (i < j)%nat →
         build_unified_timeline load !! i = Some a →
         build_unified_timeline load !! j = Some b →
         String.le (sort_key a) (sort_key b))
    ∧ (∀ i j a b, (i < j)%nat →
         build_unified_timeline load !! i = Some a →
         build_unified_timeline load !! j = Some b →
         b !! "timestamp" = None → sort_key a = "")
    ∧ (∀ k, List.filter (λ e, String.eqb (sort_key e) k) sorted_events
            = List.filter (λ e, String.eqb (sort_key e) k) (all_events load)).
Proof.
  intros Hload.
  destruct (sort_events_spec (all_events load)
              (text_timestamp_all_events load Hload))
    as (Hperm & Hsorted & Hstable).
  exists (sort_events_chronologically (all_events load)).
  assert (∀ i j a b, (i < j)%nat →
            build_unified_timeline load !! i = Some a →
            build_unified_timeline load !! j = Some b →
            String.le (sort_key a) (sort_key b)) as Hord.
  { unfold build_unified_timeline.
    intros i j a b Hij (a0 & Ha0 & ->)%lookup_number (b0 & Hb0 & ->)%lookup_number.
    rewrite !sort_key_number_insert.
    by eapply (StronglySorted_lookup _ _ i j a0 b0 Hsorted). }
  split; [done|]. split; [done|]. split; [done|]. split; [|done].
  intros i j a b Hij Ha Hb Hnone.
  specialize (Hord i j a b Hij Ha Hb).
  assert (sort_key b = "") as Hkb by (unfold sort_key, get; by rewrite Hnone).
  rewrite Hkb in Hord. unfold String.le in Hord.
  by destruct (sort_key a).
Qed.

Lemma timeline_sorted_by_timestamp_text_witness :
  ∃ sorted_events,
    build_unified_timeline sms_with_undated = number sorted_events
    ∧ Permutation sorted_events (all_events sms_with_undated)
    ∧ (∀ i j a b, (i < j)%nat →
         build_unified_timeline sms_with_undated !! i = Some a →
         build_unified_timeline sms_with_undated !! j = Some b →
         String.le (sort_key a) (sort_key b))
    ∧ (∀ i j a b, (i < j)%nat →
         build_unified_timeline sms_with_undated !! i = Some a →
         build_unified_timeline sms_with_undated !! j = Some b →
         b !! "timestamp" = None → sort_key a = "")
    ∧ (∀ k, List.filter (λ e, String.eqb (sort_key e) k) sorted_events
            = List.filter (λ e, String.eqb (sort_key e) k)
                (all_events sms_with_undated)).
Proof.
  apply (timeline_sorted_by_timestamp_text sms_with_undated).
  intros file events H. unfold sms_with_undated in H.
  destruct (String.eqb file _); [|discriminate]. injection H as <-.
  repeat constructor; intros v Hv; vm_compute in Hv;
    [injection Hv as <-; by eexists | discriminate].
Defined.


End TimelineClaims.

(** ** The timestamp normalizer *)

Section Normalizer.
Import AnomalyAnalysis.

(** Parsing the [timestamp] field against [%Y-%m-%d %H:%M:%S]: the instant
    on success, nothing when the field is missing or does not parse. *)
Definition parse_timestamp (evidence : record) : option datetime :=
  match evidence !! "timestamp" with
  | Some (VStr s) =>
      match strptime s with
      | Ok d => Some d
      | Raise _ => None
      end
  | _ => None
  end.

(** A normalized record in the words of the specification: the validity
    flag says whether parsing succeeded, [parsed_timestamp] is the instant
    or [None], every other field is the original one. *)
Definition normalized_as (evidence normalized_item : record) : Prop :=
  normalized_item !! "timestamp_valid"
    = Some (VBool (bool_decide (is_Some (parse_timestamp evidence))))
  ∧ normalized_item !! "parsed_timestamp"
    = Some (from_option VDatetime VNone (parse_timestamp evidence))
  ∧ ∀ k, k ≠ "parsed_timestamp" → k ≠ "timestamp_valid" →
      normalized_item !! k = evidence !! k.

Lemma normalized_as_functional evidence n1 n2 :
  normalized_as evidence n1 → normalized_as evidence n2 → n1 = n2.
Proof.
  intros (Hv1 & Hp1 & Hk1) (Hv2 & Hp2 & Hk2). apply map_eq. intros k.
  destruct (decide (k = "parsed_timestamp")) as [->|?]; [congruence|].
  destruct (decide (k = "timestamp_valid")) as [->|?]; [congruence|].
  by rewrite Hk1, Hk2.
Qed.








End Normalizer.

(** ** The rule battery on evidence with malformed timestamps, and what it
       does to the evidence it reads *)

Section Battery.
Import AnomalyAnalysis.

(** One source holding a dated record and a record whose timestamp is the
    text the extractors write when they have none. *)
Definition mixed_evidence : evidence_dict :=
  [("SMS", [event (Some "2023-06-01 10:00:00") "incoming" "hello";
            event (Some "Unknown") "incoming" "garbled"])].

(** C3, the code at the failing input: the normalizer tags the second
    record and stores [None] under [parsed_timestamp]; the post-deletion
    detector then sorts by [x.get("parsed_timestamp", datetime.min)], finds
    the key present, compares [None] with a [datetime] and raises; the
    exception leaves the battery as it is. *)
Theorem post_deletion_raises_on_malformed_timestamp (now : datetime) :
  (∃ normalized_data,
     normalize_timestamps mixed_evidence = Ok normalized_data
     ∧ (∃ gaps, detect_timestamp_gaps now normalized_data = Ok gaps)
     ∧ detect_post_deletion_activity now normalized_data = Raise TypeError)
  ∧ run_battery now mixed_evidence = Raise TypeError.
Proof.
  split; [|evaluate].
  exists [("SMS",
           [tagged_valid (event (Some "2023-06-01 10:00:00") "incoming" "hello")
                         (mkdt 2023 6 1 10 0 0);
            tagged_invalid (event (Some "Unknown") "incoming" "garbled")])].
  split; [evaluate|]. split; [|evaluate].
  exists []. evaluate.
Qed.

(** Two dated records, the later one first. *)
Definition unordered_evidence : evidence_dict :=
  [("SMS", [event (Some "2023-06-02 09:00:00") "incoming" "second";
            event (Some "2023-06-01 09:00:00") "incoming" "first"])].

(** C4, the code at the failing input: the post-deletion detector finds
    nothing and leaves the SMS list in another order than it found it. *)
Theorem post_deletion_reorders_the_evidence (now : datetime) :
  ∃ first second,
    normalize_timestamps unordered_evidence = Ok [("SMS", [second; first])]
    ∧ first ≠ second
    ∧ detect_post_deletion_activity now [("SMS", [second; first])]
      = Ok ([], [("SMS", [first; second])]).
Proof.
  exists (tagged_valid (event (Some "2023-06-01 09:00:00") "incoming" "first")
                       (mkdt 2023 6 1 9 0 0)),
         (tagged_valid (event (Some "2023-06-02 09:00:00") "incoming" "second")
                       (mkdt 2023 6 2 9 0 0)).
  split; [evaluate|]. split; [|evaluate].
  intros H. apply (f_equal (λ r : record, r !! "details")) in H.
  assert (∀ x y : option value, x = y →
            x = Some (VStr "first") → y = Some (VStr "second") → False) as Hne
    by (intros x y -> -> [=]).
  apply (Hne _ _ H); evaluate.
Qed.

End Battery.

(** ** The timestamp-gap rule *)

Section GapRule.
Import AnomalyAnalysis.

(** The instant a normalized record carries, in seconds. *)
Definition instant (evidence : record) : Z :=
  seconds_of (get evidence "parsed_timestamp" VNone).

(** What the normalizer guarantees of a record it tags as valid. *)
Definition dated (evidence : record) : Prop :=
  is_instant (get evidence "parsed_timestamp" VNone)
  ∧ is_Some (evidence !! "parsed_timestamp")
  ∧ is_Some (evidence !! "timestamp").

Definition well_tagged (evidence : record) : Prop :=
  timestamp_valid evidence = true → dated evidence.

Definition gap_anomaly (now : datetime) (source_type : string)
    (prev_event curr_event : record) : record :=
  anomaly now source_type "timestamp_gap"
    ("Gap of " +:+ pretty ((instant curr_event - instant prev_event) / 86400)
     +:+ " days detected between "
     +:+ str (get prev_event "timestamp" VNone) +:+ " and "
     +:+ str (get curr_event "timestamp" VNone)).

(** One finding for each pair of neighbours more than 24 hours apart. *)
Definition gap_findings (now : datetime) (source_type : string)
    (valid_evidence : list record) : list record :=
  concat (map (λ pair : record * record,
                 if 24 * 3600 <? instant pair.2 - instant pair.1
                 then [gap_anomaly now source_type pair.1 pair.2] else [])
              (zip valid_evidence (tail valid_evidence))).

Lemma normalized_as_well_tagged evidence normalized_item :
  normalized_as evidence normalized_item → well_tagged normalized_item.
Proof.
  intros (Hv & Hp & Hk). unfold well_tagged, timestamp_valid, dated, get.
  rewrite Hv, Hp. cbn. intros Hvalid. apply bool_decide_eq_true in Hvalid.
  destruct Hvalid as [d Hd]. rewrite Hd. cbn.
  split; [by eexists|]. split; [by eexists|].
  rewrite Hk by done. unfold parse_timestamp in Hd.
  destruct (evidence !! "timestamp"); [by eexists|done].
Qed.

Lemma gap_check_dated now source_type prev_event curr_event :
  dated prev_event → dated curr_event →
  gap_check now source_type prev_event curr_event
  = Ok (if 24 * 3600 <? instant curr_event - instant prev_event
        then [gap_anomaly now source_type prev_event curr_event] else []).
Proof.
  unfold dated, gap_check, gap_anomaly, instant, getitem, get.
  intros ([dp Hp] & [vp Hvp] & [tp Htp]) ([dc Hc] & [vc Hvc] & [tc Htc]).
  rewrite Hvp, Hvc, Htp, Htc in *. cbn in *. subst vp vc. cbn.
  unfold total_seconds, datetime_sub, days, GAP_THRESHOLD_HOURS.
  rewrite Z.gtb_ltb. by destruct (_ <? _).
Qed.

Lemma gap_scan_cons now source_type prev_event curr_event rest :
  gap_scan now source_type (prev_event :: curr_event :: rest)
  = a ← gap_check now source_type prev_event curr_event;
    r ← gap_scan now source_type (curr_event :: rest);
    Ok (a ++ r).
Proof. reflexivity. Qed.

Lemma gap_scan_dated now source_type valid_evidence :
  Forall dated valid_evidence →
  gap_scan now source_type valid_evidence
  = Ok (gap_findings now source_type valid_evidence).
Proof.
  unfold gap_findings.
  induction valid_evidence as [|p l IH]; intros Hall; [done|].
  apply Forall_cons in Hall as [Hp Hl].
  destruct l as [|c l]; [done|].
  rewrite gap_scan_cons, gap_check_dated by (by inversion Hl).
  rewrite IH by done. done.
Qed.

(** C2, as stated, fails: two records exactly 24 hours apart are not
    flagged, the comparison with the threshold being strict. *)
Lemma exactly_24_hours_apart_is_not_flagged :
  ∃ first second,
    mapM normalize_record
      [event (Some "2023-06-01 10:00:00") "incoming" "first";
       event (Some "2023-06-02 10:00:00") "incoming" "second"]
    = Ok [first; second]
    ∧ timestamp_valid first = true ∧ timestamp_valid second = true
    ∧ instant second - instant first = 24 * 3600
    ∧ detect_timestamp_gaps (mkdt 2024 1 1 12 0 0) [("SMS", [first; second])]
      = Ok [].
Proof.
  exists (tagged_valid (event (Some "2023-06-01 10:00:00") "incoming" "first")
                       (mkdt 2023 6 1 10 0 0)),
         (tagged_valid (event (Some "2023-06-02 10:00:00") "incoming" "second")
                       (mkdt 2023 6 2 10 0 0)).
  repeat split; evaluate.
Qed.

(** C2, amended: in every source of normalized evidence the rule sorts the
    valid-timestamp records ascending (a stable sort) and emits one
    [timestamp_gap] finding for each consecutive pair whose elapsed time
    strictly exceeds 24 hours, and none for a pair 24 hours or less apart;
    it does not raise. *)
Theorem gap_rule_flags_more_than_24_hours
    (now : datetime) (source_type : string) (evidence_list : list record) :
  Forall well_tagged evidence_list →
  ∃ valid_evidence,
    Permutation valid_evidence (List.filter timestamp_valid evidence_list)
    ∧ StronglySorted (λ a b, instant a ≤ instant b) valid_evidence
    ∧ (∀ t, List.filter (λ e, instant e =? t) valid_evidence
            = List.filter (λ e, instant e =? t)
                (List.filter timestamp_valid evidence_list))
    ∧ gaps_of_source now source_type evidence_list
      = Ok (gap_findings now source_type valid_evidence).
Proof.
  intros Htag.
  assert (Forall dated (List.filter timestamp_valid evidence_list)) as Hdated.
  { apply Forall_forall. intros e [He Hv]%list_elem_of_In%filter_In.
    rewrite Forall_forall in Htag. apply Htag; [|done]. by apply list_elem_of_In. }
  destruct (sorted_spec (A:=record) is_instant instant_ltb lt_instant
              (λ a b _ _, instant_ltb_asym a b)
              (λ a b c _ _ _, instant_ltb_trans a b c)
              (λ x, getitem x "parsed_timestamp")
              (λ x, get x "parsed_timestamp" VNone)
              (List.filter timestamp_valid evidence_list))
    as (r & Hr & Hperm & Hsorted & Hstable).
  { eapply Forall_impl; [exact Hdated|]. intros e (Hi & [v Hv] & _).
    split; [|done]. unfold getitem, get. by rewrite Hv. }
  exists r. split; [done|]. split; [|split].
  - eapply StronglySorted_weaken; [|exact Hsorted].
    intros a b. unfold instant, instant_ltb. lia.
  - intros t. apply (Hstable (λ v, seconds_of v =? t)).
    intros a b. unfold instant_ltb. lia.
  - unfold gaps_of_source.
    destruct (_ <? 2)%nat eqn:Hlen.
    + apply Nat.ltb_lt in Hlen. apply Permutation_length in Hperm.
      unfold gap_findings.
      destruct r as [|a [|b r]]; cbn in *; [done|done|lia].
    + rewrite Hr. cbn. apply gap_scan_dated. by rewrite Hperm.
Qed.

Lemma gap_rule_flags_more_than_24_hours_witness :
  ∃ valid_evidence,
    Permutation valid_evidence
      (List.filter timestamp_valid
         [<["parsed_timestamp" := VDatetime (mkdt 2023 6 2 10 0 1)]>
            (<["timestamp_valid" := VBool true]>
               (event (Some "2023-06-02 10:00:01") "incoming" "second"));
          <["parsed_timestamp" := VDatetime (mkdt 2023 6 1 10 0 0)]>
            (<["timestamp_valid" := VBool true]>
               (event (Some "2023-06-01 10:00:00") "incoming" "first"))])
    ∧ StronglySorted (λ a b, instant a ≤ instant b) valid_evidence
    ∧ (∀ t, List.filter (λ e, instant e =? t) valid_evidence
            = List.filter (λ e, instant e =? t)
                (List.filter timestamp_valid
                   [<["parsed_timestamp" := VDatetime (mkdt 2023 6 2 10 0 1)]>
                      (<["timestamp_valid" := VBool true]>
                         (event (Some "2023-06-02 10:00:01") "incoming" "second"));
                    <["parsed_timestamp" := VDatetime (mkdt 2023 6 1 10 0 0)]>
                      (<["timestamp_valid" := VBool true]>
                         (event (Some "2023-06-01 10:00:00") "incoming" "first"))]))
    ∧ gaps_of_source (mkdt 2024 1 1 12 0 0) "SMS"
        [<["parsed_timestamp" := VDatetime (mkdt 2023 6 2 10 0 1)]>
           (<["timestamp_valid" := VBool true]>
              (event (Some "2023-06-02 10:00:01") "incoming" "second"));
         <["parsed_timestamp" := VDatetime (mkdt 2023 6 1 10 0 0)]>
           (<["timestamp_valid" := VBool true]>
              (event (Some "2023-06-01 10:00:00") "incoming" "first"))]
      = Ok (gap_findings (mkdt 2024 1 1 12 0 0) "SMS" valid_evidence).
Proof.
  apply (gap_rule_flags_more_than_24_hours (mkdt 2024 1 1 12 0 0) "SMS").
  repeat constructor; vm_compute; eauto.
Defined.

End GapRule.

(** ** The data-integrity rule *)

Section DataIntegrity.
Import AnomalyAnalysis.

(** [event_signatures[sig]] *)
Fixpoint counter_get (c : list (string * Z)) (sig : string) : Z :=
  match c with
  | [] => 0
  | (k, n) :: r => if String.eqb sig k then n else counter_get r sig
  end.

(** The text of a field as a signature shows it: what an f-string prints
    for the value, and nothing for a field the record does not have. *)
Definition field_text (evidence : record) (field : string) : string :=
  match evidence !! field with
  | Some v => str v
  | None => ""
  end.

(** The signature in the words of the specification: the timestamp, the
    type and the details of the record, joined by the delimiter. *)
Definition joined_fields (evidence : record) : string :=
  String.concat "_" [field_text evidence "timestamp";
                     field_text evidence "type";
                     field_text evidence "details"].

(** How many records of the list have the text as their joined fields. *)
Definition occurrences (sig : string) (evidence_list : list record) : Z :=
  Z.of_nat (length (List.filter (λ e, String.eqb (joined_fields e) sig)
                                evidence_list)).

(** The distinct texts of a list, in the order of their first appearance. *)
Definition first_seen (texts : list string) : list string :=
  fold_left (λ seen text, if bool_decide (text ∈ seen) then seen else seen ++ [text])
            texts [].

(** The joined fields that more than one record of the list has. *)
Definition repeated_signatures (evidence_list : list record) : list string :=
  List.filter (λ sig, 1 <? occurrences sig evidence_list)
              (first_seen (map joined_fields evidence_list)).

Definition is_duplicate_finding (a : record) : bool :=
  bool_decide (a !! "type" = Some (VStr "duplicate_event")).

Definition duplicate_anomaly (now : datetime) (source_type sig : string)
    (count : Z) : record :=
  anomaly now source_type "duplicate_event"
    ("Duplicate event detected " +:+ pretty count +:+ " times: "
     +:+ slice_to 50 sig +:+ "...").

Lemma anomaly_type now source_type type details :
  anomaly now source_type type details !! "type" = Some (VStr type).
Proof.
  unfold anomaly. rewrite !lookup_insert_ne by done. apply lookup_insert_eq.
Qed.

Lemma counter_get_incr k c sig :
  counter_get (counter_incr k c) sig
  = counter_get c sig + (if String.eqb sig k then 1 else 0).
Proof.
  induction c as [|[k' n] c IH]; cbn.
  - destruct (String.eqb sig k); lia.
  - destruct (String.eqb k k') eqn:Hk; cbn.
    + apply String.eqb_eq in Hk as ->.
      destruct (String.eqb sig k'); lia.
    + destruct (String.eqb sig k') eqn:Hs; [|done].
      apply String.eqb_eq in Hs as ->.
      rewrite String.eqb_sym, Hk. lia.
Qed.

Lemma counter_keys_incr k c :
  map fst (counter_incr k c)
  = if bool_decide (k ∈ map fst c) then map fst c else map fst c ++ [k].
Proof.
  induction c as [|[k' n] c IH]; cbn; [done|].
  destruct (String.eqb k k') eqn:Hk; cbn.
  - apply String.eqb_eq in Hk as ->.
    rewrite bool_decide_eq_true_2; [done|left].
  - apply String.eqb_neq in Hk. rewrite IH.
    destruct (bool_decide (k ∈ map fst c)) eqn:Hin.
    + apply bool_decide_eq_true in Hin.
      rewrite bool_decide_eq_true_2; [done|by right].
    + apply bool_decide_eq_false in Hin.
      rewrite bool_decide_eq_false_2; [done|].
      by intros [?|?]%elem_of_cons.
Qed.

Lemma counter_positive_incr k c :
  Forall (λ p : string * Z, 0 < p.2) c →
  Forall (λ p : string * Z, 0 < p.2) (counter_incr k c).
Proof.
  induction 1 as [|[k' n] c Hn Hc IH]; cbn.
  - by repeat constructor.
  - destruct (String.eqb k k'); constructor; cbn in *; auto; lia.
Qed.

Lemma count_signatures_snoc l e :
  count_signatures (l ++ [e]) = counter_incr (signature e) (count_signatures l).
Proof. unfold count_signatures. by rewrite fold_left_app. Qed.

Lemma signature_joined_fields e : signature e = joined_fields e.
Proof.
  unfold signature, joined_fields, field_text, get.
  by destruct (e !! "timestamp"), (e !! "type"), (e !! "details").
Qed.

Lemma occurrences_snoc sig l e :
  occurrences sig (l ++ [e])
  = occurrences sig l + (if String.eqb sig (signature e) then 1 else 0).
Proof.
  unfold occurrences. rewrite List.filter_app, length_app. cbn.
  rewrite signature_joined_fields, (String.eqb_sym sig).
  destruct (String.eqb _ _); cbn; lia.
Qed.

Lemma first_seen_snoc texts text :
  first_seen (texts ++ [text])
  = if bool_decide (text ∈ first_seen texts) then first_seen texts
    else first_seen texts ++ [text].
Proof. unfold first_seen. by rewrite fold_left_app. Qed.

Lemma count_signatures_keys l :
  map fst (count_signatures l) = first_seen (map joined_fields l).
Proof.
  induction l as [|e l IH] using rev_ind; [done|].
  rewrite count_signatures_snoc, counter_keys_incr, map_app. cbn [map].
  by rewrite first_seen_snoc, IH, signature_joined_fields.
Qed.

(** The [Counter] after the first loop: one entry per distinct signature,
    in the order of first occurrence, holding its number of occurrences. *)
Lemma count_signatures_spec l :
  let c := count_signatures l in
  NoDup (map fst c)
  ∧ Forall (λ p : string * Z, 0 < p.2) c
  ∧ ∀ sig, counter_get c sig = occurrences sig l.
Proof.
  induction l as [|e l (Hnodup & Hpos & Hget)] using rev_ind.
  - cbn. repeat split; constructor.
  - cbn zeta. rewrite count_signatures_snoc. split; [|split].
    + rewrite counter_keys_incr. case_bool_decide as Hin; [done|].
      apply NoDup_app. split; [done|]. split; [|apply NoDup_singleton].
      intros x Hx ->%list_elem_of_singleton. done.
    + by apply counter_positive_incr.
    + intros sig. by rewrite counter_get_incr, occurrences_snoc, Hget.
Qed.

Lemma counter_entries (c : list (string * Z)) :
  NoDup (map fst c) → c = map (λ sig, (sig, counter_get c sig)) (map fst c).
Proof.
  induction c as [|[k n] c IH]; cbn; [done|].
  intros [Hk Hc]%NoDup_cons. rewrite String.eqb_refl. f_equal.
  rewrite IH at 1 by done. apply map_ext_in. intros sig Hsig.
  destruct (String.eqb sig k) eqn:Heq; [|done].
  apply String.eqb_eq in Heq as ->. by apply list_elem_of_In in Hsig.
Qed.

Lemma counter_get_key (c : list (string * Z)) sig :
  counter_get c sig ≠ 0 → sig ∈ map fst c.
Proof.
  induction c as [|[k n] c IH]; cbn; [done|].
  destruct (String.eqb sig k) eqn:Heq.
  - apply String.eqb_eq in Heq as ->. left.
  - right. auto.
Qed.

Lemma missing_check_not_duplicate now source_type l :
  List.filter is_duplicate_finding
    (concat (map (missing_check now source_type) l)) = [].
Proof.
  induction l as [|e l IH]; [done|]. cbn.
  rewrite List.filter_app, IH, app_nil_r. unfold missing_check.
  destruct (missing_fields e); [done|]. cbn.
  unfold is_duplicate_finding. by rewrite anomaly_type.
Qed.

Lemma duplicate_check_filter now source_type (sigs : list string) (f : string → Z) :
  List.filter is_duplicate_finding
    (concat (map (duplicate_check now source_type)
                 (map (λ sig, (sig, f sig)) sigs)))
  = map (λ sig, duplicate_anomaly now source_type sig (f sig))
        (List.filter (λ sig, 1 <? f sig) sigs).
Proof.
  induction sigs as [|sig sigs IH]; [done|]. cbn.
  rewrite List.filter_app, IH. rewrite Z.gtb_ltb.
  destruct (1 <? f sig); [|done]. cbn.
  unfold is_duplicate_finding at 1. by rewrite anomaly_type.
Qed.

Lemma duplicates_of_source now source_type evidence_list :
  List.filter is_duplicate_finding
    (inconsistencies_of_source now source_type evidence_list)
  = map (λ sig, duplicate_anomaly now source_type sig
                  (occurrences sig evidence_list))
        (repeated_signatures evidence_list).
Proof.
  destruct (count_signatures_spec evidence_list) as (Hnodup & _ & Hget).
  unfold inconsistencies_of_source, repeated_signatures.
  rewrite <- count_signatures_keys.
  set (c := count_signatures evidence_list) in *.
  rewrite List.filter_app, missing_check_not_duplicate. cbn [app].
  rewrite (counter_entries c Hnodup) at 1.
  rewrite duplicate_check_filter.
  assert (∀ ks : list string,
            List.filter (λ sig, 1 <? counter_get c sig) ks
            = List.filter (λ sig, 1 <? occurrences sig evidence_list) ks) as ->.
  { intros ks. apply filter_ext. intros sig. by rewrite Hget. }
  apply map_ext. intros sig. by rewrite Hget.
Qed.

Lemma repeated_signatures_spec evidence_list :
  NoDup (repeated_signatures evidence_list)
  ∧ ∀ sig, sig ∈ repeated_signatures evidence_list
           ↔ 1 < occurrences sig evidence_list.
Proof.
  destruct (count_signatures_spec evidence_list) as (Hnodup & _ & Hget).
  unfold repeated_signatures. rewrite <- count_signatures_keys.
  set (c := count_signatures evidence_list) in *. split.
  - clear -Hnodup. induction Hnodup as [|k ks Hk Hks IH]; cbn; [constructor|].
    destruct (1 <? _); [|done]. constructor; [|done].
    intros [Hin _]%list_elem_of_In%filter_In. by apply Hk, list_elem_of_In.
  - intros sig. rewrite list_elem_of_In, filter_In, <- list_elem_of_In, Z.ltb_lt.
    split; [by intros [_ ?]|]. intros Hocc. split; [|done].
    apply counter_get_key. rewrite Hget. lia.
Qed.

(** C6: in every source the [duplicate_event] findings of the
    data-integrity rule are exactly one per distinct signature, the
    timestamp, type and details of a record joined by the delimiter, that
    more than one record of the source has, each reporting how many records
    have it; a signature that a single record has yields none. Three
    identical CALL records yield one finding with count 3. *)
Theorem one_duplicate_finding_per_repeated_signature :
  (∀ (now : datetime) (evidence_data : evidence_dict),
     List.filter is_duplicate_finding
       (detect_data_inconsistencies now evidence_data)
     = concat (map (λ source : string * list record,
                      map (λ sig, duplicate_anomaly now source.1 sig
                                    (occurrences sig source.2))
                          (repeated_signatures source.2))
                   evidence_data))
  ∧ (∀ evidence_list : list record,
       NoDup (repeated_signatures evidence_list)
       ∧ ∀ sig, sig ∈ repeated_signatures evidence_list
                ↔ 1 < occurrences sig evidence_list)
  ∧ (∀ (now : datetime) (call : record),
       List.filter is_duplicate_finding
         (detect_data_inconsistencies now [("CALL", [call; call; call])])
       = [duplicate_anomaly now "CALL" (joined_fields call) 3]).
Proof.
  assert (∀ (now : datetime) (evidence_data : evidence_dict),
     List.filter is_duplicate_finding
       (detect_data_inconsistencies now evidence_data)
     = concat (map (λ source : string * list record,
                      map (λ sig, duplicate_anomaly now source.1 sig
                                    (occurrences sig source.2))
                          (repeated_signatures source.2))
                   evidence_data)) as Hall.
  { intros now evidence_data. unfold detect_data_inconsistencies.
    induction evidence_data as [|[source_type evidence_list] rest IH]; [done|].
    cbn [map concat]. rewrite List.filter_app, IH, duplicates_of_source. done. }
  split; [exact Hall|]. split; [exact repeated_signatures_spec|].
  intros now call. rewrite Hall. cbn [map concat fst snd]. rewrite app_nil_r.
  assert (occurrences (joined_fields call) [call; call; call] = 3) as Hocc.
  { unfold occurrences. cbn [List.filter]. by rewrite String.eqb_refl. }
  assert (first_seen (map joined_fields [call; call; call])
          = [joined_fields call]) as Hseen.
  { cbn [map]. generalize (joined_fields call). intros sig.
    unfold first_seen. cbn [fold_left].
    rewrite (bool_decide_eq_false_2 (sig ∈ [])) by (by intros ?%elem_of_nil).
    cbn [app].
    rewrite (bool_decide_eq_true_2 (sig ∈ [sig])) by left.
    by rewrite (bool_decide_eq_true_2 (sig ∈ [sig])) by left. }
  unfold repeated_signatures. rewrite Hseen. cbn [List.filter].
  rewrite Hocc. cbn [Z.ltb Z.compare Pos.compare Pos.compare_cont map].
  by rewrite Hocc.
Qed.

(** The case of the specification: three identical CALL records. *)
Definition call_record : record :=
  <["source" := VStr "CALL"]>
    (event (Some "2023-06-01 14:22:03") "missed" "+15550100").

Lemma three_identical_calls_one_finding :
  map (λ a : record, (a !! "type", a !! "details"))
      (detect_data_inconsistencies (mkdt 2024 1 1 12 0 0)
         [("CALL", [call_record; call_record; call_record])])
  = [(Some (VStr "duplicate_event"),
      Some (VStr "Duplicate event detected 3 times: 2023-06-01 14:22:03_missed_+15550100..."))].
Proof. vm_compute. reflexivity. Qed.

(** C10: the signature is not injective on (timestamp, type, details).
    Two records of one source with the same timestamp and different types
    and details get the same signature, the ["_"] inside a field moving
    text between the fields, and the data-integrity rule reports them as
    one [duplicate_event] occurring twice. *)
Theorem signature_collides_on_delimiter :
  ∃ r1 r2 : record,
    r1 !! "timestamp" = r2 !! "timestamp"
    ∧ r1 !! "type" ≠ r2 !! "type"
    ∧ r1 !! "details" ≠ r2 !! "details"
    ∧ signature r1 = signature r2
    ∧ ∀ now source_type,
        inconsistencies_of_source now source_type [r1; r2]
        = [duplicate_anomaly now source_type (signature r1) 2].
Proof.
  exists (<["source" := VStr "SMS"]> (event (Some "2023-06-01 14:22:03") "a_b" "c")),
         (<["source" := VStr "SMS"]> (event (Some "2023-06-01 14:22:03") "a" "b_c")).
  split; [vm_compute; reflexivity|].
  split; [vm_compute; discriminate|].
  split; [vm_compute; discriminate|].
  split; [vm_compute; reflexivity|].
  intros now source_type. vm_compute. reflexivity.
Qed.

End DataIntegrity.

(** ** The severity classifier *)

Section Severity.
Import AnomalyAnalysis.

(** The lookup table, in the words of the specification. *)
Definition tier_of (anomaly_type : option value) : string :=
  if decide (anomaly_type = Some (VStr "future_timestamp")) then "CRITICAL"
  else if decide (anomaly_type = Some (VStr "post_deletion_activity")) then "HIGH"
  else if decide (anomaly_type = Some (VStr "timestamp_gap")) then "MEDIUM"
  else if decide (anomaly_type = Some (VStr "missing_fields")) then "MEDIUM"
  else if decide (anomaly_type = Some (VStr "duplicate_event")) then "LOW"
  else "LOW".

(** How many anomalies of the list the table puts in the tier. *)
Definition in_tier (tier : string) (anomalies : list record) : Z :=
  Z.of_nat (length (List.filter
                      (λ a : record, String.eqb (tier_of (a !! "type")) tier)
                      anomalies)).

Definition distribution (critical high medium low : Z) : gmap string Z :=
  {[ "CRITICAL" := critical; "HIGH" := high; "MEDIUM" := medium; "LOW" := low ]}.

Lemma severity_weights_other t :
  t ≠ "future_timestamp" → t ≠ "post_deletion_activity" → t ≠ "timestamp_gap" →
  t ≠ "duplicate_event" → t ≠ "missing_fields" →
  severity_weights !! t = None.
Proof.
  intros. unfold severity_weights.
  rewrite !lookup_insert_ne by done. by apply lookup_singleton_ne.
Qed.

Lemma severity_of_table (a : record) : severity_of a = tier_of (a !! "type").
Proof.
  unfold severity_of, get.
  destruct (a !! "type") as [[| | |t|]|]; try reflexivity.
  cbn. unfold tier_of.
  repeat (case_decide; [simplify_eq; reflexivity|]).
  rewrite severity_weights_other; [done|congruence..].
Qed.

Lemma tier_of_cases (t : option value) :
  tier_of t = "CRITICAL" ∨ tier_of t = "HIGH"
  ∨ tier_of t = "MEDIUM" ∨ tier_of t = "LOW".
Proof. unfold tier_of. repeat case_decide; auto. Qed.

Lemma bump_distribution (tier : string) (c h m l : Z) :
  tier = "CRITICAL" ∨ tier = "HIGH" ∨ tier = "MEDIUM" ∨ tier = "LOW" →
  bump tier (distribution c h m l)
  = distribution (c + (if String.eqb tier "CRITICAL" then 1 else 0))
                 (h + (if String.eqb tier "HIGH" then 1 else 0))
                 (m + (if String.eqb tier "MEDIUM" then 1 else 0))
                 (l + (if String.eqb tier "LOW" then 1 else 0)).
Proof.
  intros [-> | [-> | [-> | ->]]]; cbn [String.eqb Ascii.eqb Bool.eqb];
    rewrite !Z.add_0_r; vm_compute; reflexivity.
Qed.

Lemma in_tier_cons tier (a : record) anomalies :
  in_tier tier (a :: anomalies)
  = (if String.eqb (tier_of (a !! "type")) tier then 1 else 0)
    + in_tier tier anomalies.
Proof.
  unfold in_tier. cbn [List.filter].
  destruct (String.eqb _ tier); cbn [length]; lia.
Qed.

Lemma tally_from (anomalies : list record) (c h m l : Z) :
  fold_left (λ severity_scores a, bump (severity_of a) severity_scores)
    anomalies (distribution c h m l)
  = distribution (c + in_tier "CRITICAL" anomalies) (h + in_tier "HIGH" anomalies)
      (m + in_tier "MEDIUM" anomalies) (l + in_tier "LOW" anomalies).
Proof.
  revert c h m l. induction anomalies as [|a anomalies IH]; intros c h m l.
  - unfold in_tier. cbn. by rewrite !Z.add_0_r.
  - cbn [fold_left]. rewrite severity_of_table.
    rewrite bump_distribution by apply tier_of_cases.
    rewrite IH, !in_tier_cons. f_equal; lia.
Qed.

(** C7: the classifier puts each anomaly in the tier the fixed table gives
    its type (an absent or unrecognized type in LOW) and returns the count
    of each tier and the total; with one [future_timestamp] and two
    [timestamp_gap] findings that is CRITICAL 1, HIGH 0, MEDIUM 2, LOW 0,
    total 3. *)
Theorem severity_counts_by_fixed_table :
  (∀ anomalies : list record,
     let s := calculate_anomaly_severity anomalies in
     (∀ a, a ∈ anomalies → severity_of a = tier_of (a !! "type"))
     ∧ severity_distribution s
       = distribution (in_tier "CRITICAL" anomalies) (in_tier "HIGH" anomalies)
           (in_tier "MEDIUM" anomalies) (in_tier "LOW" anomalies)
     ∧ total_anomalies s = Z.of_nat (length anomalies)
     ∧ critical_anomalies s = in_tier "CRITICAL" anomalies
     ∧ high_anomalies s = in_tier "HIGH" anomalies)
  ∧ (∀ now source_type d1 d2 d3,
       let s := calculate_anomaly_severity
                  [anomaly now source_type "future_timestamp" d1;
                   anomaly now source_type "timestamp_gap" d2;
                   anomaly now source_type "timestamp_gap" d3] in
       severity_distribution s = distribution 1 0 2 0 ∧ total_anomalies s = 3).
Proof.
  split.
  - intros anomalies. cbn zeta.
    assert (tally anomalies
            = distribution (in_tier "CRITICAL" anomalies) (in_tier "HIGH" anomalies)
                (in_tier "MEDIUM" anomalies) (in_tier "LOW" anomalies)) as Htally.
    { etrans; [exact (tally_from anomalies 0 0 0 0)|]. by rewrite !Z.add_0_l. }
    unfold calculate_anomaly_severity. cbn. rewrite Htally.
    split; [intros; apply severity_of_table|].
    split; [done|]. split; [done|]. split; reflexivity.
  - intros. split; vm_compute; reflexivity.
Qed.

End Severity.

(** ** Persisting the report *)

Section Persist.
Import AnomalyAnalysis.

(** Atomic persistence in the words of the specification: whatever the
    outcome, the file afterwards holds the complete report or what it held
    before. *)
Definition atomic_save {report : Type} (json_chunks : report → list string) : Prop :=
  ∀ (r : report) (output_file : string) (o : outcome) (fs : gmap string string),
    let after := (save_anomaly_report json_chunks r output_file o fs).2 in
    after !! output_file = Some (dump (json_chunks r))
    ∨ after !! output_file = fs !! output_file.

(** C9, as stated, fails: a write that fails after the first chunk leaves
    that chunk alone in the file, where an earlier report stood. *)
Lemma failed_write_leaves_partial_report :
  ¬ atomic_save (λ r : list string, r).
Proof.
  intros H.
  specialize (H ["{"; "}"]%string
                "anomaly_analysis_report.json"
                (WriteFails 1 "No space left on device")
                {[ "anomaly_analysis_report.json" := "{ }" ]}).
  vm_compute in H. destruct H as [H|H]; discriminate.
Qed.

(** C9, amended: the report is written in place. When the open fails the
    file system is unchanged; otherwise the file holds the chunks written
    before the failure, the previous content being gone, and the whole
    report when no write fails; no other file is touched. The exception a
    failure raises in the body is caught by the handler: the call prints
    the error line and returns normally. *)
Theorem save_writes_in_place {report : Type} (json_chunks : report → list string)
    (r : report) (output_file : string) (o : outcome) (fs : gmap string string) :
  let body := write_report json_chunks r output_file o fs in
  let call := save_anomaly_report json_chunks r output_file o fs in
  call.1.1 = Normal
  ∧ (∀ other, other ≠ output_file → call.2 !! other = fs !! other)
  ∧ match o with
    | OpenFails e =>
        body.1.1 = Raised e
        ∧ call.2 = fs
        ∧ call.1.2 = ["Error saving anomaly report: " +:+ e]
    | WriteFails n e =>
        call.2 !! output_file = Some (dump (take n (json_chunks r)))
        ∧ if (n <? length (json_chunks r))%nat then
            body.1.1 = Raised e
            ∧ call.1.2 = ["Error saving anomaly report: " +:+ e]
          else
            body.1.1 = Normal
            ∧ call.1.2 = ["Anomaly analysis report saved to: " +:+ output_file]
    | Written =>
        body.1.1 = Normal
        ∧ call.2 !! output_file = Some (dump (json_chunks r))
        ∧ call.1.2 = ["Anomaly analysis report saved to: " +:+ output_file]
    end.
Proof.
  cbn zeta. unfold save_anomaly_report, write_report.
  destruct o as [e|n e|].
  - done.
  - destruct (n <? length (json_chunks r))%nat eqn:Hn; cbn [fst snd app].
    + split; [done|]. split; [intros; by rewrite lookup_insert_ne|].
      split; [apply lookup_insert_eq|done].
    + apply Nat.ltb_ge in Hn. rewrite take_ge by done.
      split; [done|]. split; [intros; by rewrite lookup_insert_ne|].
      split; [apply lookup_insert_eq|done].
  - cbn [fst snd]. split; [done|]. split; [intros; by rewrite lookup_insert_ne|].
    split; [done|]. split; [apply lookup_insert_eq|done].
Qed.

End Persist.

(** * Further properties of the engine *)

(** ** When a sort raises *)

Section SortRaises.
Context {A : Type}.
Implicit Types (d : list (value * A)) (k : value) (x : A).

Lemma lt_raises a b e : lt a b = Raise e → e = TypeError.
Proof.
  destruct a, b; cbn; try congruence;
    repeat match goal with |- context [if ?c then _ else _] => destruct c end;
    congruence.
Qed.

Lemma lt_None_l b : lt VNone b = Raise TypeError.
Proof. by destruct b. Qed.

Lemma lt_None_r a : lt a VNone = Raise TypeError.
Proof. by destruct a as [|[]| | |]. Qed.

Lemma insert_by_raises k x d e : insert_by k x d = Raise e → e = TypeError.
Proof.
  induction d as [|[k' y] d IH]; cbn; [done|].
  destruct (lt k' k) as [[]|e'] eqn:Hlt; cbn.
  - destruct (insert_by k x d); cbn; [done|]. intros [= <-]. by apply IH.
  - done.
  - intros [= <-]. by eapply lt_raises.
Qed.

Lemma sort_keyed_raises d e : sort_keyed d = Raise e → e = TypeError.
Proof.
  induction d as [|[k x] d IH]; cbn; [done|].
  destruct (sort_keyed d) as [r|e']; cbn.
  - apply insert_by_raises.
  - intros [= <-]. by apply IH.
Qed.

(** A key that is [None] among two or more items: some comparison meets
    it, and raises. *)
Lemma sort_keyed_None d x :
  (2 ≤ length d)%nat → (VNone, x) ∈ d → sort_keyed d = Raise TypeError.
Proof.
  revert x. induction d as [|[k y] d IH]; intros x Hlen Hin; [cbn in Hlen; lia|].
  cbn [sort_keyed].
  destruct (sort_keyed d) as [r|e] eqn:Hr; cbn.
  - assert (Permutation r d) as Hperm by by apply sort_keyed_Permutation.
    destruct r as [|[k' z] r].
    { apply Permutation_length in Hperm. cbn in *. lia. }
    cbn. destruct (decide (k = VNone)) as [->|Hk].
    { rewrite lt_None_r. reflexivity. }
    apply elem_of_cons in Hin as [[= <- <-]|Hin]; [done|].
    destruct d as [|p1 [|p2 d]]; [by inversion Hin| |].
    + apply list_elem_of_singleton in Hin as <-.
      cbn in Hr. simplify_eq. rewrite lt_None_l. reflexivity.
    + by specialize (IH x ltac:(cbn; lia) Hin).
  - f_equal. by eapply sort_keyed_raises.
Qed.

Lemma sorted_None (kf : A → value) (l : list A) x :
  (2 ≤ length l)%nat → x ∈ l → kf x = VNone →
  sorted (λ y, Ok (kf y)) l = Raise TypeError.
Proof.
  intros Hlen Hin Hx. unfold sorted.
  rewrite (mapM_Ok_pure _ (λ y, (kf y, y))) by by apply Forall_forall.
  cbn. rewrite (sort_keyed_None _ x); [done|by rewrite length_map|].
  rewrite <- Hx. apply (list_elem_of_fmap_2 (λ y, (kf y, y))). done.
Qed.

(** A stable sort leaves a sorted list as it is. *)
Lemma sort_keyed_sorted (ltb : value → value → bool) d :
  (∀ p q, p ∈ d → q ∈ d → lt p.1 q.1 = Ok (ltb p.1 q.1)) →
  StronglySorted (λ p q, ltb q.1 p.1 = false) d →
  sort_keyed d = Ok d.
Proof.
  intros Hlt Hs. induction Hs as [|[k x] d Hs IH Hall]; [done|].
  cbn [sort_keyed]. rewrite IH; cycle 1.
  { intros p q Hp Hq. apply Hlt; by right. }
  cbn. destruct d as [|[k' y] d]; [done|]. cbn.
  pose proof (Hlt (k', y) (k, x)) as Hcmp. cbn in Hcmp.
  rewrite Hcmp by (try left; right; left). cbn.
  apply Forall_cons in Hall as [Hk' _]. cbn in Hk'. by rewrite Hk'.
Qed.
End SortRaises.

(** ** More on the normalizer *)

Section NormalizerMore.
Import AnomalyAnalysis.






(** Normalizing is idempotent: a normalized record is its own
    normalization, and so is normalized evidence as a whole. *)
Theorem normalizer_is_idempotent (evidence_data normalized_data : evidence_dict) :
  normalize_timestamps evidence_data = Ok normalized_data →
  normalize_timestamps normalized_data = Ok normalized_data.
Proof.
  assert (∀ (m : record) a b x y,
            <[a:=x]> (<[b:=y]> (<[a:=x]> (<[b:=y]> m))) = <[a:=x]> (<[b:=y]> m))
    as Hins.
  { intros m a b x y. apply map_eq. intros k.
    rewrite !lookup_insert. by repeat case_decide. }
  assert (∀ e n, normalize_record e = Ok n → normalize_record n = Ok n) as Hrec.
  { intros e n. unfold normalize_record, getitem.
    destruct (e !! "timestamp") as [v|] eqn:Hts; cbn [mbind result_bind].
    - destruct (strptime_value v) as [d|[]] eqn:Hv; intros [= <-];
        rewrite !lookup_insert_ne, Hts by done; cbn [mbind result_bind];
        rewrite Hv; by rewrite Hins.
    - intros [= <-]. rewrite !lookup_insert_ne, Hts by done.
      cbn [mbind result_bind]. by rewrite Hins. }
  assert (∀ l r, mapM normalize_record l = Ok r → mapM normalize_record r = Ok r)
    as Hlist.
  { intros l r H%mapM_Ok_Forall2. apply mapM_Ok_Forall2.
    induction H; constructor; eauto. }
  unfold normalize_timestamps. intros H%mapM_Ok_Forall2. apply mapM_Ok_Forall2.
  induction H as [|[s l] [s' r] ev nv Hx Hall IH]; constructor; [|done].
  cbn in *. destruct (mapM normalize_record l) as [r'|] eqn:Hl; cbn in Hx; [|done].
  injection Hx as <- <-. by rewrite (Hlist l r').
Qed.

Lemma normalizer_is_idempotent_witness :
  normalize_timestamps
    [("SMS", [tagged_valid (event (Some "2023-06-01 14:22:03") "incoming" "hello")
                           (mkdt 2023 6 1 14 22 3);
              tagged_invalid (event (Some "Unknown") "incoming" "garbled")])]
  = Ok [("SMS", [tagged_valid (event (Some "2023-06-01 14:22:03") "incoming" "hello")
                              (mkdt 2023 6 1 14 22 3);
                 tagged_invalid (event (Some "Unknown") "incoming" "garbled")])].
Proof.
  apply (normalizer_is_idempotent
           [("SMS", [event (Some "2023-06-01 14:22:03") "incoming" "hello";
                     event (Some "Unknown") "incoming" "garbled"])]).
  evaluate.
Defined.

End NormalizerMore.

(** Proves a [Forall] over an explicit list, element by element. *)
Ltac for_each_record tac :=
  repeat first [apply Forall_nil_2 | apply Forall_cons_2; [tac|]].

(** Proves that the records of an explicit list are as the normalizer
    leaves them. *)
Ltac show_tagged :=
  for_each_record ltac:(
    first [ left; eexists _, _; repeat split; vm_compute; reflexivity
          | right; split; vm_compute; reflexivity ]).

(** Two normalized records, the later one first, and a normalized source
    with a record whose timestamp did not parse. *)
Definition later_note : record :=
  tagged_valid (event (Some "2023-06-01 10:05:00") "created" "note")
               (mkdt 2023 6 1 10 5 0).
Definition earlier_deletion : record :=
  tagged_valid (event (Some "2023-06-01 10:00:00") "deleted" "photo")
               (mkdt 2023 6 1 10 0 0).
Definition garbled_record : record :=
  tagged_invalid (event (Some "Unknown") "incoming" "garbled").

(** ** The post-deletion rule on normalized evidence *)

Section PostDeletion.
Import AnomalyAnalysis.

(** A record as the normalizer leaves it: dated, or marked invalid with
    [None] under [parsed_timestamp]. *)
Definition tagged (r : record) : Prop :=
  (∃ d s, r !! "parsed_timestamp" = Some (VDatetime d)
          ∧ r !! "timestamp_valid" = Some (VBool true)
          ∧ r !! "timestamp" = Some (VStr s))
  ∨ (r !! "parsed_timestamp" = Some VNone
     ∧ r !! "timestamp_valid" = Some (VBool false)).


Lemma tagged_valid_dated r :
  tagged r → timestamp_valid r = true →
  ∃ d, r !! "parsed_timestamp" = Some (VDatetime d).
Proof.
  unfold timestamp_valid, get.
  intros [(d & s & Hp & Hv & _)|[_ Hv]]; rewrite Hv; cbn; [eauto|done].
Qed.

Lemma tagged_invalid_None r :
  tagged r → timestamp_valid r = false → r !! "parsed_timestamp" = Some VNone.
Proof.
  unfold timestamp_valid, get.
  intros [(d & s & Hp & Hv & _)|[Hp Hv]]; rewrite Hv; cbn; done.
Qed.

Lemma tagged_truthy r :
  tagged r → truthy (get r "timestamp_valid" VNone) = timestamp_valid r.
Proof.
  unfold timestamp_valid, get.
  by intros [(d & s & Hp & Hv & _)|[Hp Hv]]; rewrite Hv.
Qed.

(** What the rule counts after a deletion: the records of a later instant
    that are not deletions themselves. *)
Definition not_deleted (r : record) : bool :=
  negb (eq (get r "type" VNone) (VStr "deleted")).
Definition activity_after (deletion : record) (l : list record) : list record :=
  List.filter (λ r, (instant deletion <? instant r) && not_deleted r) l.

Definition deletion_finding (now : datetime) (source_type : string)
    (l : list record) (deletion : record) : list record :=
  match activity_after deletion l with
  | [] => []
  | (_ :: _) as later =>
      [anomaly now source_type "post_deletion_activity"
         (pretty (Z.of_nat (length later))
          +:+ " events detected after deletion at "
          +:+ match get deletion "parsed_timestamp" VNone with
              | VDatetime d => strftime d
              | _ => ""
              end)]
  end.

Lemma after_deletion_dated (d : datetime) (l : list record) :
  Forall tagged l → Forall (λ r, timestamp_valid r = true) l →
  mapM (after_deletion (VDatetime d)) l
  = Ok (map (λ r, (to_seconds d <? instant r) && not_deleted r) l).
Proof.
  intros Ht Hv. apply mapM_Ok_pure.
  apply Forall_forall. intros r Hr.
  rewrite Forall_forall in Ht, Hv.
  unfold after_deletion. rewrite (tagged_truthy r), (Hv r) by auto.
  destruct (tagged_valid_dated r (Ht r Hr) (Hv r Hr)) as [d' Hd'].
  unfold getitem, instant, get, not_deleted. rewrite Hd'. cbn. done.
Qed.

Lemma filter_flags (f : record → bool) (l : list record) :
  length (List.filter (λ b : bool, b) (map f l)) = length (List.filter f l).
Proof.
  induction l as [|r l IH]; [done|]. cbn.
  destruct (f r); cbn; by rewrite IH.
Qed.

Lemma deletion_check_dated now source_type (l : list record) deletion d :
  Forall tagged l → Forall (λ r, timestamp_valid r = true) l →
  deletion !! "parsed_timestamp" = Some (VDatetime d) →
  deletion_check now source_type l (VDatetime d)
  = Ok (deletion_finding now source_type l deletion).
Proof.
  intros Ht Hv Hd. unfold deletion_check, deletion_finding, activity_after.
  rewrite after_deletion_dated by done. cbn.
  assert (instant deletion = to_seconds d) as ->.
  { unfold instant, get. by rewrite Hd. }
  pose proof (filter_flags (λ r, (to_seconds d <? instant r) && not_deleted r) l)
    as Hlen.
  unfold get. rewrite Hd. cbn.
  destruct (List.filter (λ b : bool, b) _) as [|b bs];
    destruct (List.filter (λ r, _ && _) l) as [|r rs]; cbn in Hlen; try done.
  cbn [length] in *. by rewrite Hlen.
Qed.

Lemma dated_key (r : record) :
  tagged r → timestamp_valid r = true →
  is_instant (get r "parsed_timestamp" (VDatetime datetime_min))
  ∧ get r "parsed_timestamp" (VDatetime datetime_min)
    = get r "parsed_timestamp" VNone
  ∧ getitem r "parsed_timestamp" = Ok (get r "parsed_timestamp" VNone).
Proof.
  intros Ht Hv. destruct (tagged_valid_dated r Ht Hv) as [d Hd].
  unfold get, getitem. rewrite Hd. cbn. split; [by eexists|done].
Qed.

Lemma deletion_checks_dated now source_type (l ds : list record) :
  Forall tagged l → Forall (λ r, timestamp_valid r = true) l →
  Forall (λ r, tagged r ∧ timestamp_valid r = true) ds →
  mapM (deletion_check now source_type l)
       (map (λ r, get r "parsed_timestamp" VNone) ds)
  = Ok (map (deletion_finding now source_type l) ds).
Proof.
  intros Ht Hv Hds. apply mapM_Ok_Forall2.
  induction Hds as [|r ds [Hr Hrv] Hds IH]; cbn; constructor; [|done].
  destruct (tagged_valid_dated r Hr Hrv) as [d Hd].
  unfold get at 1. rewrite Hd. cbn. by apply deletion_check_dated.
Qed.

Lemma deletions_of_dated_source
    (now : datetime) (source_type : string) (evidence_list : list record) :
  Forall tagged evidence_list →
  Forall (λ r, timestamp_valid r = true) evidence_list →
  ∃ sorted_list,
    Permutation sorted_list evidence_list
    ∧ StronglySorted (λ a b, instant a ≤ instant b) sorted_list
    ∧ (∀ t, List.filter (λ r, instant r =? t) sorted_list
            = List.filter (λ r, instant r =? t) evidence_list)
    ∧ deletions_of_source now source_type evidence_list
      = Ok (concat (map (deletion_finding now source_type sorted_list)
                        (List.filter is_deletion sorted_list)),
            sorted_list).
Proof.
  intros Ht Hv.
  assert (Forall (λ r, tagged r ∧ timestamp_valid r = true) evidence_list) as Htv.
  { apply Forall_forall. intros r Hr. rewrite Forall_forall in Ht, Hv. auto. }
  destruct (sorted_spec (A:=record) is_instant instant_ltb lt_instant
              (λ a b _ _, instant_ltb_asym a b)
              (λ a b c _ _ _, instant_ltb_trans a b c)
              (λ x, Ok (get x "parsed_timestamp" (VDatetime datetime_min)))
              (λ x, get x "parsed_timestamp" (VDatetime datetime_min))
              evidence_list)
    as (s & Hs & Hperm & Hsorted & Hstable).
  { eapply Forall_impl; [exact Htv|]. intros r [Hr Hrv].
    split; [done|]. by apply dated_key. }
  assert (Forall (λ r, tagged r ∧ timestamp_valid r = true) s) as Hs_tv
    by by rewrite Hperm.
  assert (∀ r, r ∈ s → instant r
            = seconds_of (get r "parsed_timestamp" (VDatetime datetime_min)))
    as Hinst.
  { intros r Hr. rewrite Forall_forall in Hs_tv. destruct (Hs_tv r Hr) as [? ?].
    unfold instant. by destruct (dated_key r) as (_ & -> & _). }
  assert (Forall (λ r, instant r
            = seconds_of (get r "parsed_timestamp" (VDatetime datetime_min)))
            evidence_list) as Hinst_l.
  { rewrite <- Hperm. by apply Forall_forall. }
  exists s. split; [done|]. split; [|split].
  - clear -Hsorted Hinst. induction Hsorted as [|a l Hl IH Hall]; constructor.
    + apply IH. intros r Hr. apply Hinst. by right.
    + rewrite Forall_forall in Hall. apply Forall_forall. intros b Hb.
      rewrite (Hinst a), (Hinst b) by (try left; by right).
      specialize (Hall b Hb). unfold instant_ltb in Hall. lia.
  - intros t. specialize (Hstable (λ v, seconds_of v =? t)).
    etrans; [|etrans; [apply Hstable|]].
    + apply List.filter_ext_in. intros r Hr%list_elem_of_In. by rewrite Hinst.
    + intros a b. unfold instant_ltb. lia.
    + apply List.filter_ext_in. intros r Hr%list_elem_of_In.
      rewrite Forall_forall in Hinst_l. by rewrite Hinst_l.
  - unfold deletions_of_source. rewrite Hs. cbn [mbind result_bind].
    assert (Forall (λ r, tagged r ∧ timestamp_valid r = true)
                   (List.filter is_deletion s)) as Hdel.
    { apply Forall_forall. intros r [Hr _]%list_elem_of_In%filter_In.
      rewrite Forall_forall in Hs_tv. by apply Hs_tv, list_elem_of_In. }
    rewrite (mapM_Ok_pure _ (λ r, get r "parsed_timestamp" VNone)); cycle 1.
    { eapply Forall_impl; [exact Hdel|]. intros r [Hr Hrv].
      by destruct (dated_key r) as (_ & _ & ->). }
    cbn [mbind result_bind].
    rewrite deletion_checks_dated; [done| | |done].
    + eapply Forall_impl; [exact Hs_tv|]. by intros r [? ?].
    + eapply Forall_impl; [exact Hs_tv|]. by intros r [? ?].
Qed.



(** The sort of the rule meets [None]: two or more records, one of them
    marked invalid. *)
Definition breaks_sort (l : list record) : bool :=
  (2 <=? length l)%nat && existsb (λ r, negb (timestamp_valid r)) l.

Lemma deletions_of_source_breaks now source_type l :
  Forall tagged l → breaks_sort l = true →
  deletions_of_source now source_type l = Raise TypeError.
Proof.
  intros Ht [Hlen Hex]%andb_true_iff.
  apply Nat.leb_le in Hlen. apply existsb_exists in Hex as (r & Hr & Hrv).
  apply negb_true_iff in Hrv. apply list_elem_of_In in Hr.
  rewrite Forall_forall in Ht.
  unfold deletions_of_source.
  rewrite (sorted_None (λ x, get x "parsed_timestamp" (VDatetime datetime_min))
             l r); [done|done|done|].
  unfold get. by rewrite (tagged_invalid_None r (Ht r Hr) Hrv).
Qed.

Lemma deletions_of_source_returns now source_type l :
  Forall tagged l → breaks_sort l = false →
  ∃ findings sorted_list,
    deletions_of_source now source_type l = Ok (findings, sorted_list)
    ∧ Permutation sorted_list l
    ∧ sorted (λ x, Ok (get x "parsed_timestamp" (VDatetime datetime_min)))
             sorted_list = Ok sorted_list.
Proof.
  intros Ht Hb.
  destruct (forallb timestamp_valid l) eqn:Hall.
  - rewrite forallb_forall in Hall.
    assert (Forall (λ r, timestamp_valid r = true) l) as Hv.
    { apply Forall_forall. intros r Hr%list_elem_of_In. auto. }
    destruct (deletions_of_dated_source now source_type l Ht Hv)
      as (s & Hperm & Hsorted & _ & Hres).
    eexists _, s. split; [exact Hres|]. split; [done|].
    assert (Forall (λ r, tagged r ∧ timestamp_valid r = true) s) as Hs.
    { rewrite Hperm. apply Forall_forall. intros r Hr.
      rewrite Forall_forall in Ht, Hv. auto. }
    unfold sorted.
    rewrite (mapM_Ok_pure _ (λ x, (get x "parsed_timestamp" VNone, x))); cycle 1.
    { eapply Forall_impl; [exact Hs|]. intros r [Hr Hrv]. cbn.
      by destruct (dated_key r Hr Hrv) as (_ & -> & _). }
    cbn [mbind result_bind].
    rewrite (sort_keyed_sorted instant_ltb).
    + cbn. by rewrite map_map, map_id.
    + intros p q [rp [-> Hp]]%list_elem_of_fmap [rq [-> Hq]]%list_elem_of_fmap.
      rewrite Forall_forall in Hs. cbn.
      destruct (Hs rp Hp) as [? ?], (Hs rq Hq) as [? ?].
      apply lt_instant.
      * destruct (dated_key rp) as (Hi & <- & _); done.
      * destruct (dated_key rq) as (Hi & <- & _); done.
    + clear -Hsorted. induction Hsorted as [|a l Hl IH Hall]; cbn; constructor.
      * done.
      * apply Forall_map. eapply Forall_impl; [exact Hall|].
        intros b Hab. cbn. unfold instant_ltb. unfold instant in Hab. lia.
  - assert (existsb (λ r, negb (timestamp_valid r)) l = true) as Hex.
    { apply not_true_iff_false in Hall. apply not_false_iff_true.
      intros Hno. apply Hall. apply forallb_forall. intros r Hr.
      apply not_false_iff_true. intros Hrv.
      apply not_true_iff_false in Hno. apply Hno.
      apply existsb_exists. exists r. by rewrite Hrv. }
    unfold breaks_sort in Hb. rewrite Hex, andb_true_r in Hb.
    apply Nat.leb_gt in Hb.
    destruct l as [|r [|r' l]]; cbn in Hb; [done| |lia].
    cbn in Hall. rewrite andb_true_r in Hall.
    apply Forall_cons in Ht as [Hr _].
    exists [], [r]. split; [|done].
    unfold deletions_of_source. cbn.
    unfold is_deletion. rewrite (tagged_truthy r Hr), Hall, andb_false_r. done.
Qed.

Lemma deletions_of_source_again now source_type l findings sorted_list :
  Forall tagged l →
  deletions_of_source now source_type l = Ok (findings, sorted_list) →
  deletions_of_source now source_type sorted_list = Ok (findings, sorted_list).
Proof.
  intros Ht Hres. destruct (breaks_sort l) eqn:Hb.
  { by rewrite deletions_of_source_breaks in Hres. }
  destruct (deletions_of_source_returns now source_type l Ht Hb)
    as (f & s & Hres' & _ & Hs).
  rewrite Hres in Hres'. injection Hres' as <- <-.
  unfold deletions_of_source in *. rewrite Hs.
  destruct (sorted _ l) as [s1|]; [|done]. cbn [mbind result_bind] in *.
  destruct (mapM _ (List.filter is_deletion s1)) as [ds|] eqn:Hds; [|done].
  cbn [mbind result_bind] in *.
  destruct (mapM _ ds) as [rs|] eqn:Hrs; [|done].
  cbn [mbind result_bind] in *. injection Hres as <- <-.
  by rewrite Hds; cbn [mbind result_bind]; rewrite Hrs.
Qed.

Definition tagged_evidence (evidence_data : AnomalyAnalysis.evidence_dict) : Prop :=
  Forall (λ source : string * list record, Forall tagged source.2) evidence_data.

Lemma detect_post_deletion_activity_tagged
    (now : datetime) (evidence_data : evidence_dict) :
  tagged_evidence evidence_data →
  if existsb (λ source : string * list record, breaks_sort source.2) evidence_data
  then detect_post_deletion_activity now evidence_data = Raise TypeError
  else ∃ findings after,
         detect_post_deletion_activity now evidence_data = Ok (findings, after)
         ∧ Forall2 (λ source left : string * list record,
                      left.1 = source.1 ∧ Permutation left.2 source.2)
                   evidence_data after.
Proof.
  intros Ht. unfold detect_post_deletion_activity.
  destruct (existsb _ evidence_data) eqn:Hex.
  - apply existsb_exists in Hex as ([s l] & Hin & Hb). cbn in Hb.
    rewrite (mapM_Raise _ evidence_data (s, l) TypeError); [done| | |].
    + by apply list_elem_of_In.
    + intros [s' l'] Hin'. cbn.
      unfold tagged_evidence in Ht. rewrite Forall_forall in Ht.
      specialize (Ht _ Hin'). cbn in Ht.
      destruct (breaks_sort l') eqn:Hb'.
      * left. by rewrite deletions_of_source_breaks.
      * right.
        destruct (deletions_of_source_returns now s' l' Ht Hb')
          as (f & sl & -> & _). cbn. eauto.
    + cbn. rewrite deletions_of_source_breaks; [done| |done].
      unfold tagged_evidence in Ht. rewrite Forall_forall in Ht.
      apply (Ht (s, l)). by apply list_elem_of_In.
  - assert (∃ rs : list (list record * (string * list record)),
              mapM (λ '(source_type, evidence_list),
                      '(a, l) ← deletions_of_source now source_type evidence_list;
                      Ok (a, (source_type, l))) evidence_data = Ok rs
              ∧ Forall2 (λ source left : string * list record,
                           left.1 = source.1 ∧ Permutation left.2 source.2)
                        evidence_data (map snd rs)) as (rs & -> & Hrs).
    { induction Ht as [|[s l] ev Hl Hev IH].
      - exists []. split; [done|constructor].
      - cbn in Hex. apply orb_false_iff in Hex as [Hb Hex].
        destruct (IH Hex) as (rs & Hrs & Hall).
        destruct (deletions_of_source_returns now s l Hl Hb)
          as (f & sl & Hres & Hperm & _).
        exists ((f, (s, sl)) :: rs). rewrite mapM_Ok_cons. cbn.
        rewrite Hres. cbn. rewrite Hrs. split; [done|].
        by constructor. }
    cbn. eauto.
Qed.

(** On normalized evidence the rule raises exactly when some source holds
    two or more records of which one has an invalid timestamp; in every
    other case it returns, with the same sources and each list a
    permutation of what it was. *)
Theorem post_deletion_raises_exactly_on_an_invalid_timestamp_among_several
    (now : datetime) (evidence_data : evidence_dict) :
  tagged_evidence evidence_data →
  if existsb (λ source : string * list record, breaks_sort source.2) evidence_data
  then detect_post_deletion_activity now evidence_data = Raise TypeError
  else ∃ findings after,
         detect_post_deletion_activity now evidence_data = Ok (findings, after)
         ∧ Forall2 (λ source left : string * list record,
                      left.1 = source.1 ∧ Permutation left.2 source.2)
                   evidence_data after.
Proof. apply detect_post_deletion_activity_tagged. Qed.

Lemma post_deletion_raises_exactly_on_an_invalid_timestamp_among_several_witness :
  detect_post_deletion_activity (mkdt 2024 1 1 12 0 0)
    [("SMS", [later_note; garbled_record]); ("CALL", [])]
  = Raise TypeError.
Proof.
  pose proof (post_deletion_raises_exactly_on_an_invalid_timestamp_among_several
                (mkdt 2024 1 1 12 0 0)
                [("SMS", [later_note; garbled_record]); ("CALL", [])]) as W.
  assert (existsb (λ source : string * list record, breaks_sort source.2)
                  [("SMS", [later_note; garbled_record]); ("CALL", [])] = true)
    as E by (vm_compute; reflexivity).
  rewrite E in W. apply W.
  apply Forall_cons_2; [show_tagged|]. apply Forall_cons_2; [show_tagged|].
  apply Forall_nil_2.
Defined.

(** Running the rule again on the evidence it left gives the same findings
    and leaves the evidence as it is: the reordering happens once. *)
Theorem post_deletion_second_run_changes_nothing
    (now : datetime) (evidence_data after : evidence_dict) (findings : list record) :
  tagged_evidence evidence_data →
  detect_post_deletion_activity now evidence_data = Ok (findings, after) →
  detect_post_deletion_activity now after = Ok (findings, after).
Proof.
  unfold detect_post_deletion_activity. intros Ht Hres.
  destruct (mapM _ evidence_data) as [rs|] eqn:Hrs; [|done].
  cbn in Hres. injection Hres as <- <-.
  assert (mapM (λ '(source_type, evidence_list),
                  '(a, l) ← deletions_of_source now source_type evidence_list;
                  Ok (a, (source_type, l))) (map snd rs) = Ok rs) as ->; [|done].
  apply mapM_Ok_Forall2 in Hrs. apply mapM_Ok_Forall2.
  induction Hrs as [|[s l] [f [s' sl]] ev rs Hx Hall IH]; cbn; [constructor|].
  apply Forall_cons in Ht as [Hl Hev]. cbn in Hl.
  constructor; [|by apply IH].
  destruct (deletions_of_source now s l) as [[f' sl']|] eqn:Hd; [|done].
  cbn in Hx. injection Hx as <- <- <-.
  by rewrite (deletions_of_source_again now s l f' sl').
Qed.

Lemma post_deletion_second_run_changes_nothing_witness :
  detect_post_deletion_activity (mkdt 2024 1 1 12 0 0)
    [("MEDIA", [earlier_deletion; later_note])]
  = Ok ([anomaly (mkdt 2024 1 1 12 0 0) "MEDIA" "post_deletion_activity"
           "1 events detected after deletion at 2023-06-01 10:00:00"],
        [("MEDIA", [earlier_deletion; later_note])]).
Proof.
  apply (post_deletion_second_run_changes_nothing (mkdt 2024 1 1 12 0 0)
           [("MEDIA", [later_note; earlier_deletion])]).
  - apply Forall_cons_2; [show_tagged|]. apply Forall_nil_2.
  - evaluate.
Defined.
End PostDeletion.

(** ** The future-timestamp rule, the gap rule and the whole battery on
       normalized evidence *)

Section BatteryOnNormalized.
Import AnomalyAnalysis.

Definition future_finding (now : datetime) (source_type : string)
    (r : record) : list record :=
  if to_seconds now <? instant r then
    [anomaly now source_type "future_timestamp"
       ("Event timestamp " +:+ str (get r "timestamp" VNone)
        +:+ " is in the future")]
  else [].

Lemma future_check_tagged now source_type r :
  tagged r → timestamp_valid r = true →
  future_check now source_type r = Ok (future_finding now source_type r).
Proof.
  unfold timestamp_valid, future_check, future_finding, instant, getitem, get.
  intros [(d & s & Hp & Hv & Hs)|[_ Hv]]; rewrite Hv; cbn; [|done].
  intros _. rewrite Hp, Hs. cbn. by destruct (_ <? _).
Qed.

Lemma detect_temporal_inconsistencies_tagged
    (now : datetime) (evidence_data : evidence_dict) :
  tagged_evidence evidence_data →
  detect_temporal_inconsistencies now evidence_data
  = Ok (concat (map (λ source : string * list record,
                       concat (map (future_finding now source.1)
                                   (List.filter timestamp_valid source.2)))
                    evidence_data)).
Proof.
  intros Ht. unfold detect_temporal_inconsistencies.
  rewrite (mapM_Ok_pure _ (λ source : string * list record,
                             concat (map (future_finding now source.1)
                                         (List.filter timestamp_valid source.2))));
    [done|].
  eapply Forall_impl; [exact Ht|]. intros [s l] Hl. cbn in *.
  rewrite (mapM_Ok_pure _ (future_finding now s)); [done|].
  apply Forall_forall. intros r [Hr Hv]%list_elem_of_In%filter_In.
  rewrite Forall_forall in Hl. apply future_check_tagged; [|done].
  by apply Hl, list_elem_of_In.
Qed.

(** On normalized evidence the future-timestamp rule returns one finding
    for each record with a valid timestamp strictly later than the clock,
    in the order of the evidence; a record dated at the very second of the
    clock, and a record with an invalid timestamp, is not reported. *)
Theorem future_rule_flags_instants_after_the_clock
    (now : datetime) (evidence_data : evidence_dict) :
  tagged_evidence evidence_data →
  detect_temporal_inconsistencies now evidence_data
  = Ok (concat (map (λ source : string * list record,
                       concat (map (future_finding now source.1)
                                   (List.filter timestamp_valid source.2)))
                    evidence_data)).
Proof. apply detect_temporal_inconsistencies_tagged. Qed.

Lemma future_rule_flags_instants_after_the_clock_witness :
  detect_temporal_inconsistencies (mkdt 2023 6 1 10 0 0)
    [("MEDIA", [later_note; earlier_deletion; garbled_record])]
  = Ok (concat (map (λ source : string * list record,
                       concat (map (future_finding (mkdt 2023 6 1 10 0 0) source.1)
                                   (List.filter timestamp_valid source.2)))
                    [("MEDIA", [later_note; earlier_deletion; garbled_record])])).
Proof.
  apply (future_rule_flags_instants_after_the_clock (mkdt 2023 6 1 10 0 0)).
  apply Forall_cons_2; [show_tagged|]. apply Forall_nil_2.
Defined.

Lemma tagged_well_tagged r : tagged r → well_tagged r.
Proof.
  unfold well_tagged, dated, timestamp_valid, get.
  intros [(d & s & Hp & Hv & Hs)|[_ Hv]]; rewrite Hv; cbn; [|done].
  intros _. rewrite Hp, Hs. cbn. split; [by eexists|]. split; by eexists.
Qed.

Lemma gaps_of_tagged_source now source_type l :
  Forall tagged l →
  ∃ valid_evidence,
    Permutation valid_evidence (List.filter timestamp_valid l)
    ∧ gaps_of_source now source_type l
      = Ok (gap_findings now source_type valid_evidence).
Proof.
  intros Ht.
  assert (Forall dated (List.filter timestamp_valid l)) as Hdated.
  { apply Forall_forall. intros e [He Hv]%list_elem_of_In%filter_In.
    rewrite Forall_forall in Ht. apply tagged_well_tagged; [|done].
    by apply Ht, list_elem_of_In. }
  destruct (sorted_spec (A:=record) is_instant instant_ltb lt_instant
              (λ a b _ _, instant_ltb_asym a b)
              (λ a b c _ _ _, instant_ltb_trans a b c)
              (λ x, getitem x "parsed_timestamp")
              (λ x, get x "parsed_timestamp" VNone)
              (List.filter timestamp_valid l))
    as (r & Hr & Hperm & _ & _).
  { eapply Forall_impl; [exact Hdated|]. intros e (Hi & [v Hv] & _).
    split; [|done]. unfold getitem, get. by rewrite Hv. }
  exists r. split; [done|]. unfold gaps_of_source.
  destruct (_ <? 2)%nat eqn:Hlen.
  - apply Nat.ltb_lt in Hlen. apply Permutation_length in Hperm.
    unfold gap_findings.
    destruct r as [|a [|b r]]; cbn in *; [done|done|lia].
  - rewrite Hr. cbn. apply gap_scan_dated. by rewrite Hperm.
Qed.

Lemma detect_timestamp_gaps_tagged
    (now : datetime) (evidence_data : evidence_dict) :
  tagged_evidence evidence_data →
  ∃ per_source : list (list record),
    detect_timestamp_gaps now evidence_data = Ok (concat per_source)
    ∧ Forall2 (λ (source : string * list record) findings,
                 (length findings
                  ≤ length (List.filter timestamp_valid source.2) - 1)%nat
                 ∧ Forall (λ a : record,
                             a !! "type" = Some (VStr "timestamp_gap")
                             ∧ a !! "source" = Some (VStr source.1))
                          findings)
              evidence_data per_source.
Proof.
  intros Ht. unfold detect_timestamp_gaps.
  assert (∃ per_source,
            mapM (λ '(source_type, evidence_list),
                    gaps_of_source now source_type evidence_list) evidence_data
            = Ok per_source
            ∧ Forall2 (λ (source : string * list record) findings,
                 (length findings
                  ≤ length (List.filter timestamp_valid source.2) - 1)%nat
                 ∧ Forall (λ a : record,
                             a !! "type" = Some (VStr "timestamp_gap")
                             ∧ a !! "source" = Some (VStr source.1))
                          findings)
              evidence_data per_source) as (ps & -> & Hps); [|by exists ps].
  induction Ht as [|[s l] ev Hl Hev (ps & Hps & Hall)].
  { exists []. split; [done|constructor]. }
  destruct (gaps_of_tagged_source now s l Hl) as (v & Hperm & Hres).
  exists (gap_findings now s v :: ps). rewrite mapM_Ok_cons. cbn.
  rewrite Hres. cbn. rewrite Hps. split; [done|].
  constructor; [|done]. cbn. rewrite <- (Permutation_length Hperm).
  clear. unfold gap_findings. split.
  - induction v as [|a [|b v] IH]; [cbn; lia..|].
    cbn [tail zip zip_with map concat] in *. rewrite length_app.
    destruct (_ <? _); cbn in *; lia.
  - induction v as [|a [|b v] IH]; [constructor..|].
    cbn [tail zip zip_with map concat] in *. apply Forall_app. split; [|done].
    destruct (_ <? _); constructor; [|constructor].
    unfold gap_anomaly, anomaly. cbn.
    rewrite !lookup_insert_ne by done.
    rewrite lookup_insert_eq, lookup_insert_ne, lookup_insert_eq by done. done.
Qed.
(** On normalized evidence the gap rule returns: an invalid timestamp never
    makes it raise, and a source yields fewer findings than it has records
    with a valid timestamp. *)
Theorem gap_rule_returns_on_normalized_evidence
    (now : datetime) (evidence_data : evidence_dict) :
  tagged_evidence evidence_data →
  ∃ per_source : list (list record),
    detect_timestamp_gaps now evidence_data = Ok (concat per_source)
    ∧ Forall2 (λ (source : string * list record) findings,
                 (length findings
                  ≤ length (List.filter timestamp_valid source.2) - 1)%nat
                 ∧ Forall (λ a : record,
                             a !! "type" = Some (VStr "timestamp_gap")
                             ∧ a !! "source" = Some (VStr source.1))
                          findings)
              evidence_data per_source.
Proof. apply detect_timestamp_gaps_tagged. Qed.

Lemma gap_rule_returns_on_normalized_evidence_witness :
  ∃ per_source : list (list record),
    detect_timestamp_gaps (mkdt 2024 1 1 12 0 0)
      [("MEDIA", [later_note; garbled_record; earlier_deletion])]
    = Ok (concat per_source)
    ∧ Forall2 (λ (source : string * list record) findings,
                 (length findings
                  ≤ length (List.filter timestamp_valid source.2) - 1)%nat
                 ∧ Forall (λ a : record,
                             a !! "type" = Some (VStr "timestamp_gap")
                             ∧ a !! "source" = Some (VStr source.1))
                          findings)
              [("MEDIA", [later_note; garbled_record; earlier_deletion])]
              per_source.
Proof.
  apply (gap_rule_returns_on_normalized_evidence (mkdt 2024 1 1 12 0 0)).
  apply Forall_cons_2; [show_tagged|]. apply Forall_nil_2.
Defined.

(** *** The battery as a whole *)







End BatteryOnNormalized.

(** ** More on the data-integrity rule *)

Section DataIntegrityMore.
Import AnomalyAnalysis.

Definition is_missing_finding (a : record) : bool :=
  bool_decide (a !! "type" = Some (VStr "missing_fields")).

Definition missing_anomaly (now : datetime) (source_type : string)
    (evidence : record) : record :=
  anomaly now source_type "missing_fields"
    ("Missing required fields: " +:+ repr_names (missing_fields evidence)
     +:+ " in event " +:+ str (get evidence "timestamp" (VStr "unknown"))).

(** The record lacks one of the four mandatory fields. *)
Definition incomplete (evidence : record) : bool :=
  bool_decide (evidence !! "timestamp" = None)
  || bool_decide (evidence !! "source" = None)
  || bool_decide (evidence !! "type" = None)
  || bool_decide (evidence !! "details" = None).

Lemma missing_fields_nil evidence :
  missing_fields evidence = [] ↔ incomplete evidence = false.
Proof.
  unfold missing_fields, incomplete, required_fields. cbn.
  destruct (bool_decide (evidence !! "timestamp" = None)),
           (bool_decide (evidence !! "source" = None)),
           (bool_decide (evidence !! "type" = None)),
           (bool_decide (evidence !! "details" = None)); cbn; split; done.
Qed.

Lemma missing_check_incomplete now source_type evidence :
  missing_check now source_type evidence
  = if incomplete evidence then [missing_anomaly now source_type evidence] else [].
Proof.
  unfold missing_check, missing_anomaly.
  destruct (incomplete evidence) eqn:Hi.
  - destruct (missing_fields evidence) eqn:Hm; [|done].
    apply missing_fields_nil in Hm. congruence.
  - apply missing_fields_nil in Hi. by rewrite Hi.
Qed.

Lemma duplicate_check_not_missing now source_type c :
  List.filter is_missing_finding
    (concat (map (duplicate_check now source_type) c)) = [].
Proof.
  induction c as [|[sig n] c IH]; [done|]. cbn.
  rewrite List.filter_app, IH, app_nil_r.
  destruct (n >? 1); [|done]. cbn.
  unfold is_missing_finding. by rewrite anomaly_type.
Qed.

(** The [missing_fields] findings are one for each record that lacks a
    mandatory field, in the order of the evidence; a finding names the
    fields the record lacks, in the order timestamp, source, type, details,
    and a record that has the four fields yields none. *)
Theorem one_missing_fields_finding_per_incomplete_record :
  (∀ (now : datetime) (evidence_data : evidence_dict),
     List.filter is_missing_finding
       (detect_data_inconsistencies now evidence_data)
     = concat (map (λ source : string * list record,
                      map (missing_anomaly now source.1)
                          (List.filter incomplete source.2))
                   evidence_data))
  ∧ (∀ (evidence : record) (field : string),
       field ∈ missing_fields evidence
       ↔ field ∈ ["timestamp"; "source"; "type"; "details"]
         ∧ evidence !! field = None)
  ∧ (∀ evidence : record,
       sublist (missing_fields evidence)
               ["timestamp"; "source"; "type"; "details"]).
Proof.
  split; [|split].
  - intros now evidence_data. unfold detect_data_inconsistencies.
    induction evidence_data as [|[s l] ev IH]; [done|]. cbn [map concat].
    rewrite List.filter_app, IH. f_equal. cbn.
    unfold inconsistencies_of_source.
    rewrite List.filter_app, duplicate_check_not_missing, app_nil_r.
    clear. induction l as [|e l IH]; [done|]. cbn.
    rewrite List.filter_app, IH, missing_check_incomplete.
    destruct (incomplete e); [|done]. cbn.
    unfold is_missing_finding, missing_anomaly. by rewrite anomaly_type.
  - intros evidence field. unfold missing_fields, required_fields.
    rewrite list_elem_of_In, filter_In, <- list_elem_of_In.
    by rewrite bool_decide_eq_true.
  - intros evidence. unfold missing_fields, required_fields. cbn.
    destruct (bool_decide (evidence !! "timestamp" = None)),
             (bool_decide (evidence !! "source" = None)),
             (bool_decide (evidence !! "type" = None)),
             (bool_decide (evidence !! "details" = None)); cbn;
      repeat first [apply sublist_nil | apply sublist_skip | apply sublist_cons].
Qed.

Lemma occurrences_cons sig e l :
  occurrences sig (e :: l)
  = (if String.eqb (joined_fields e) sig then 1 else 0) + occurrences sig l.
Proof.
  unfold occurrences. cbn [List.filter].
  destruct (String.eqb _ _); cbn [length]; lia.
Qed.

Lemma occurrences_nonneg sig l : 0 ≤ occurrences sig l.
Proof. unfold occurrences. lia. Qed.

Lemma occurrences_zero sig l :
  occurrences sig l = 0 ↔ sig ∉ map joined_fields l.
Proof.
  induction l as [|e l IH]; cbn [map].
  - split; [intros _ H; by inversion H|done].
  - rewrite occurrences_cons, not_elem_of_cons.
    pose proof (occurrences_nonneg sig l).
    destruct (String.eqb _ _) eqn:Heq.
    + apply String.eqb_eq in Heq. split; [lia|]. intros [Hne _]. congruence.
    + apply String.eqb_neq in Heq. rewrite <- IH. split.
      * intros. split; [congruence|lia].
      * intros [_ ?]. lia.
Qed.

Lemma occurrences_NoDup l :
  NoDup (map joined_fields l) ↔ ∀ sig, occurrences sig l ≤ 1.
Proof.
  induction l as [|e l IH]; cbn [map].
  - split; [|constructor]. intros _ sig. unfold occurrences. cbn. lia.
  - rewrite NoDup_cons, IH, <- occurrences_zero. split.
    + intros [Hz Hl] sig. rewrite occurrences_cons.
      destruct (String.eqb _ _) eqn:Heq; [|apply Hl].
      apply String.eqb_eq in Heq as <-. lia.
    + intros H. split.
      * specialize (H (joined_fields e)). rewrite occurrences_cons in H.
        rewrite String.eqb_refl in H.
        pose proof (occurrences_nonneg (joined_fields e) l). lia.
      * intros sig. specialize (H sig). rewrite occurrences_cons in H.
        destruct (String.eqb _ _); lia.
Qed.

Lemma duplicate_check_all_duplicates now source_type c :
  List.filter is_duplicate_finding
    (concat (map (duplicate_check now source_type) c))
  = concat (map (duplicate_check now source_type) c).
Proof.
  induction c as [|[sig n] c IH]; [done|]. cbn.
  rewrite List.filter_app, IH. f_equal.
  destruct (n >? 1); [|done]. cbn.
  unfold is_duplicate_finding. by rewrite anomaly_type.
Qed.

Lemma inconsistencies_of_source_nil now source_type l :
  inconsistencies_of_source now source_type l = []
  ↔ Forall (λ e, incomplete e = false) l ∧ NoDup (map joined_fields l).
Proof.
  pose proof (duplicates_of_source now source_type l) as Hdup.
  unfold inconsistencies_of_source in *.
  rewrite List.filter_app, missing_check_not_duplicate,
    duplicate_check_all_duplicates in Hdup. cbn [app] in Hdup.
  rewrite Hdup. rewrite app_nil. 
  assert (concat (map (missing_check now source_type) l) = []
          ↔ Forall (λ e, incomplete e = false) l) as ->.
  { clear. induction l as [|e l IH]; cbn.
    - split; [constructor|done].
    - rewrite app_nil, IH, Forall_cons, missing_check_incomplete.
      destruct (incomplete e); split; intros [? ?];
        first [discriminate | by split]. }
  assert (map (λ sig, duplicate_anomaly now source_type sig (occurrences sig l))
              (repeated_signatures l) = []
          ↔ NoDup (map joined_fields l)) as ->; [|done].
  destruct (repeated_signatures_spec l) as [_ Hrep].
  rewrite occurrences_NoDup. split.
  - intros Hnil%fmap_nil_inv sig.
    destruct (Z_lt_le_dec 1 (occurrences sig l)) as [Hlt|]; [|done].
    apply Hrep in Hlt. rewrite Hnil in Hlt. by inversion Hlt.
  - intros Hle. destruct (repeated_signatures l) as [|sig r] eqn:Hr; [done|].
    assert (sig ∈ sig :: r) as Hin by left.
    apply Hrep in Hin. specialize (Hle sig). lia.
Qed.

(** The rule reports nothing exactly when every record has the four
    mandatory fields and, within each source, no two records have the same
    joined timestamp, type and details. *)
Theorem data_rule_is_silent_exactly_on_complete_distinct_records
    (now : datetime) (evidence_data : evidence_dict) :
  detect_data_inconsistencies now evidence_data = []
  ↔ Forall (λ source : string * list record,
              Forall (λ e, incomplete e = false) source.2
              ∧ NoDup (map joined_fields source.2))
           evidence_data.
Proof.
  unfold detect_data_inconsistencies.
  induction evidence_data as [|[s l] ev IH]; cbn [map concat].
  - split; [constructor|done].
  - rewrite app_nil, IH, Forall_cons, inconsistencies_of_source_nil. done.
Qed.

Lemma normalize_record_keeps e n k :
  normalize_record e = Ok n →
  k ≠ "parsed_timestamp" → k ≠ "timestamp_valid" → n !! k = e !! k.
Proof.
  unfold normalize_record. intros H ? ?.
  destruct (_ ≫= _) as [d|[]]; simplify_eq; by rewrite !lookup_insert_ne.
Qed.

Lemma count_signatures_ext l l' :
  Forall2 (λ a b, signature a = signature b) l l' →
  count_signatures l = count_signatures l'.
Proof.
  unfold count_signatures. generalize (@nil (string * Z)).
  intros c H. revert c. induction H as [|a b l l' Hab Hl IH]; intros c; [done|].
  cbn. rewrite Hab. apply IH.
Qed.

(** The data-integrity findings of normalized evidence are those of the
    raw evidence: the two fields the normalizer adds take no part in the
    signature nor in the check of the mandatory fields. *)
Theorem data_rule_does_not_see_the_normalization
    (now : datetime) (evidence_data normalized_data : evidence_dict) :
  normalize_timestamps evidence_data = Ok normalized_data →
  detect_data_inconsistencies now normalized_data
  = detect_data_inconsistencies now evidence_data.
Proof.
  unfold normalize_timestamps, detect_data_inconsistencies.
  intros H%mapM_Ok_Forall2.
  induction H as [|[s l] [s' nl] ev nd Hx Hall IH]; [done|].
  cbn [map concat]. rewrite IH. f_equal.
  cbn in Hx. destruct (mapM normalize_record l) as [nl'|] eqn:Hl; [|done].
  cbn in Hx. injection Hx as <- <-. apply mapM_Ok_Forall2 in Hl.
  unfold inconsistencies_of_source. f_equal.
  - f_equal. clear -Hl. induction Hl as [|e n l nl Hn Hl IH]; [done|].
    cbn. rewrite IH. f_equal.
    unfold missing_check, missing_fields, required_fields, get. cbn.
    by rewrite !(normalize_record_keeps e n).
  - do 2 f_equal. symmetry. apply count_signatures_ext.
    clear -Hl. induction Hl as [|e n l nl Hn Hl IH]; constructor; [|done].
    unfold signature, get. by rewrite !(normalize_record_keeps e n).
Qed.

Lemma data_rule_does_not_see_the_normalization_witness :
  detect_data_inconsistencies (mkdt 2024 1 1 12 0 0)
    [("SMS", [tagged_valid (event (Some "2023-06-01 14:22:03") "incoming" "hello")
                           (mkdt 2023 6 1 14 22 3);
              tagged_invalid (event (Some "Unknown") "incoming" "garbled")])]
  = detect_data_inconsistencies (mkdt 2024 1 1 12 0 0)
      [("SMS", [event (Some "2023-06-01 14:22:03") "incoming" "hello";
                event (Some "Unknown") "incoming" "garbled"])].
Proof.
  apply (data_rule_does_not_see_the_normalization (mkdt 2024 1 1 12 0 0)).
  evaluate.
Defined.

(** *** The signature tells records apart when the delimiter is kept out of
        the timestamp and the type *)




End DataIntegrityMore.

(** ** More on the severity classifier and the report *)

Section SeverityMore.
Import AnomalyAnalysis.

Lemma in_tier_total (anomalies : list record) :
  in_tier "CRITICAL" anomalies + in_tier "HIGH" anomalies
  + in_tier "MEDIUM" anomalies + in_tier "LOW" anomalies
  = Z.of_nat (length anomalies).
Proof.
  induction anomalies as [|a anomalies IH]; [done|].
  rewrite !in_tier_cons. cbn [length].
  destruct (tier_of_cases (a !! "type")) as [-> | [-> | [-> | ->]]];
    cbn [String.eqb Ascii.eqb Bool.eqb]; lia.
Qed.

Lemma distribution_lookup (c h m l : Z) :
  distribution c h m l !! "CRITICAL" = Some c
  ∧ distribution c h m l !! "HIGH" = Some h
  ∧ distribution c h m l !! "MEDIUM" = Some m
  ∧ distribution c h m l !! "LOW" = Some l
  ∧ dom (distribution c h m l) = {[ "CRITICAL"; "HIGH"; "MEDIUM"; "LOW" ]}.
Proof.
  unfold distribution. split_and!.
  - apply lookup_insert_eq.
  - rewrite lookup_insert_ne by done. apply lookup_insert_eq.
  - rewrite !lookup_insert_ne by done. apply lookup_insert_eq.
  - rewrite !lookup_insert_ne by done. apply lookup_singleton_eq.
  - rewrite !dom_insert_L, dom_singleton_L. set_solver.
Qed.

(** The four tiers are always present in the distribution, also with a
    count of zero, every count is non-negative and the four counts add up
    to the total: each anomaly is counted once, in one tier. *)
Theorem severity_tiers_add_up (anomalies : list record) :
  let s := calculate_anomaly_severity anomalies in
  dom (severity_distribution s) = {[ "CRITICAL"; "HIGH"; "MEDIUM"; "LOW" ]}
  ∧ ∃ c h m l : Z,
      severity_distribution s !! "CRITICAL" = Some c
      ∧ severity_distribution s !! "HIGH" = Some h
      ∧ severity_distribution s !! "MEDIUM" = Some m
      ∧ severity_distribution s !! "LOW" = Some l
      ∧ 0 ≤ c ∧ 0 ≤ h ∧ 0 ≤ m ∧ 0 ≤ l
      ∧ c + h + m + l = total_anomalies s
      ∧ critical_anomalies s = c ∧ high_anomalies s = h.
Proof.
  cbn zeta.
  assert (tally anomalies
          = distribution (in_tier "CRITICAL" anomalies) (in_tier "HIGH" anomalies)
              (in_tier "MEDIUM" anomalies) (in_tier "LOW" anomalies)) as Htally.
  { etrans; [exact (tally_from anomalies 0 0 0 0)|]. by rewrite !Z.add_0_l. }
  unfold calculate_anomaly_severity. cbn. rewrite Htally.
  destruct (distribution_lookup (in_tier "CRITICAL" anomalies)
              (in_tier "HIGH" anomalies) (in_tier "MEDIUM" anomalies)
              (in_tier "LOW" anomalies)) as (Hc & Hh & Hm & Hl & Hdom).
  split; [done|].
  eexists _, _, _, _. rewrite Hc, Hh, Hm, Hl. cbn.
  repeat split; try (unfold in_tier; lia). apply in_tier_total.
Qed.

(** Classifying two lists of anomalies and adding the counts is
    classifying their concatenation. *)
Theorem severity_of_concatenation (first second : list record) (tier : string) :
  tier ∈ ["CRITICAL"; "HIGH"; "MEDIUM"; "LOW"] →
  default 0 (severity_distribution (calculate_anomaly_severity (first ++ second))
               !! tier)
  = default 0 (severity_distribution (calculate_anomaly_severity first) !! tier)
    + default 0 (severity_distribution (calculate_anomaly_severity second) !! tier).
Proof.
  assert (∀ anomalies, tally anomalies
          = distribution (in_tier "CRITICAL" anomalies) (in_tier "HIGH" anomalies)
              (in_tier "MEDIUM" anomalies) (in_tier "LOW" anomalies)) as Htally.
  { intros anomalies.
    etrans; [exact (tally_from anomalies 0 0 0 0)|]. by rewrite !Z.add_0_l. }
  assert (∀ t, in_tier t (first ++ second) = in_tier t first + in_tier t second)
    as Happ.
  { intros t. unfold in_tier. rewrite List.filter_app, length_app. lia. }
  unfold calculate_anomaly_severity. cbn. rewrite !Htally.
  intros Htier. repeat (apply elem_of_cons in Htier as [->|Htier]);
    [..|by apply elem_of_nil in Htier].
  all: repeat match goal with
       | |- context [distribution ?c ?h ?m ?l !! _] =>
           let H := fresh in
           pose proof (distribution_lookup c h m l) as (? & ? & ? & ? & _);
           generalize dependent (distribution c h m l); intros
       end.
  all: repeat match goal with H : _ !! _ = Some _ |- _ => rewrite H; clear H end.
  all: cbn; apply Happ.
Qed.

Lemma severity_of_concatenation_witness :
  default 0 (severity_distribution
               (calculate_anomaly_severity
                  ([anomaly (mkdt 2024 1 1 12 0 0) "SMS" "timestamp_gap" "one"]
                   ++ [anomaly (mkdt 2024 1 1 12 0 0) "CALL" "missing_fields" "two"]))
               !! "MEDIUM")
  = default 0 (severity_distribution
                 (calculate_anomaly_severity
                    [anomaly (mkdt 2024 1 1 12 0 0) "SMS" "timestamp_gap" "one"])
                 !! "MEDIUM")
    + default 0 (severity_distribution
                   (calculate_anomaly_severity
                      [anomaly (mkdt 2024 1 1 12 0 0) "CALL" "missing_fields" "two"])
                   !! "MEDIUM").
Proof.
  apply (severity_of_concatenation
           [anomaly (mkdt 2024 1 1 12 0 0) "SMS" "timestamp_gap" "one"]
           [anomaly (mkdt 2024 1 1 12 0 0) "CALL" "missing_fields" "two"]
           "MEDIUM").
  do 2 right. left.
Defined.
End SeverityMore.

(** ** The report assembler *)

Section ReportProperties.
Import AnomalyAnalysis Report.

Definition counted (d : list (value * Z)) : Z := foldr Z.add 0 (map snd d).

Definition categorized (a : record) : bool :=
  bool_decide (is_Some (a !! "type")) && bool_decide (is_Some (a !! "source")).

Lemma counted_count_key k d : counted (count_key k d) = counted d + 1.
Proof.
  unfold counted. induction d as [|[k' n] d IH]; cbn; [lia|].
  destruct (eq k' k); cbn; lia.
Qed.

Lemma categorize_spec anomalies by_type by_source :
  if forallb categorized anomalies
  then ∃ by_type' by_source',
         categorize anomalies by_type by_source = Ok (by_type', by_source')
         ∧ counted by_type' = counted by_type + Z.of_nat (length anomalies)
         ∧ counted by_source' = counted by_source + Z.of_nat (length anomalies)
  else categorize anomalies by_type by_source = Raise KeyError.
Proof.
  revert by_type by_source.
  induction anomalies as [|a anomalies IH]; intros by_type by_source.
  - cbn. eexists _, _. split; [done|]. lia.
  - cbn [forallb categorize]. unfold categorized at 1, getitem.
    destruct (a !! "type") as [t|]; cbn; [|done].
    destruct (a !! "source") as [s|]; cbn; [|done].
    specialize (IH (count_key t by_type) (count_key s by_source)).
    destruct (forallb categorized anomalies); [|done].
    destruct IH as (bt & bs & -> & Hbt & Hbs). eexists _, _. split; [done|].
    rewrite counted_count_key in Hbt, Hbs. lia.
Qed.

Lemma generate_anomaly_report_spec (now : datetime) (anomalies : list record)
    (severity_assessment : severity_assessment) :
  if forallb categorized anomalies
  then ∃ r, generate_anomaly_report now anomalies severity_assessment = Ok r
            ∧ findings r = anomalies
            ∧ severity r = severity_assessment
            ∧ Report.total_anomalies r = Z.of_nat (length anomalies)
            ∧ counted (anomalies_by_type r) = Report.total_anomalies r
            ∧ counted (anomalies_by_source r) = Report.total_anomalies r
  else generate_anomaly_report now anomalies severity_assessment = Raise KeyError.
Proof.
  unfold generate_anomaly_report.
  pose proof (categorize_spec anomalies [] []) as H.
  destruct (forallb categorized anomalies).
  - destruct H as (bt & bs & -> & Hbt & Hbs). cbn.
    eexists. split; [done|]. cbn. repeat split; done.
  - by rewrite H.
Qed.

(** The assembler raises a [KeyError] when an anomaly has no [type] or no
    [source]; otherwise it returns a report that holds the anomalies as
    they came, their number as the total, and counts by type and by source
    that each add up to that total. *)
Theorem report_counts_add_up (now : datetime) (anomalies : list record)
    (severity_assessment : severity_assessment) :
  if forallb categorized anomalies
  then ∃ r, generate_anomaly_report now anomalies severity_assessment = Ok r
            ∧ findings r = anomalies
            ∧ severity r = severity_assessment
            ∧ Report.total_anomalies r = Z.of_nat (length anomalies)
            ∧ counted (anomalies_by_type r) = Report.total_anomalies r
            ∧ counted (anomalies_by_source r) = Report.total_anomalies r
  else generate_anomaly_report now anomalies severity_assessment = Raise KeyError.
Proof. apply generate_anomaly_report_spec. Qed.

End ReportProperties.

(** ** Canonical timestamps: what is printed is read back *)

Section Canonical.
Import AnomalyAnalysis.

(** The ASCII digit of a number below ten, and a number on two digits. *)
Definition digit (a : Z) : ascii := ascii_of_N (Z.to_N (48 + a)).
Definition two_digits (n : Z) : string :=
  String (digit (n / 10)) (String (digit (n mod 10)) "").
Definition four_digits (n : Z) : string :=
  two_digits (n / 100) +:+ two_digits (n mod 100).

Lemma pad2_two_digits n : 0 ≤ n ≤ 99 → pad2 n = two_digits n.
Proof.
  intros Hn.
  assert (forallb (λ n, String.eqb (pad2 n) (two_digits n)) (seqZ 0 100) = true)
    as Hall by (vm_compute; reflexivity).
  rewrite forallb_forall in Hall. apply String.eqb_eq, Hall.
  apply list_elem_of_In, elem_of_seqZ. lia.
Qed.

Lemma pad4_four_digits n : 0 ≤ n ≤ 9999 → pad4 n = four_digits n.
Proof.
  intros Hn.
  assert (forallb (λ n, String.eqb (pad4 n) (four_digits n)) (seqZ 0 10000) = true)
    as Hall by (vm_compute; reflexivity).
  rewrite forallb_forall in Hall. apply String.eqb_eq, Hall.
  apply list_elem_of_In, elem_of_seqZ. lia.
Qed.

Lemma append_String c s t : String c s +:+ t = String c (s +:+ t).
Proof. reflexivity. Qed.

Lemma append_empty t : "" +:+ t = t.
Proof. reflexivity. Qed.

Lemma code_digit a : 0 ≤ a ≤ 9 → code (digit a) = 48 + a.
Proof.
  intros Ha. unfold code, digit. rewrite N_ascii_embedding; lia.
Qed.

Lemma chars_digit a s : 0 ≤ a ≤ 9 → chars (String (digit a) s) = (48 + a) :: chars s.
Proof.
  intros Ha. unfold chars. cbn [list_ascii_of_string utf8_decode].
  rewrite code_digit by done. cbn zeta.
  destruct (48 + a <? 192) eqn:H; [done|lia].
Qed.

(** *** The matchers on ASCII digits *)

Lemma decimal_value_digit a : 0 ≤ a ≤ 9 → decimal_value (48 + a) = Some a.
Proof.
  intros Ha. unfold decimal_value, decimal_zeros. cbn [List.find].
  destruct ((48 <=? 48 + a) && (48 + a <? 48 + 10)) eqn:H; [f_equal; lia|lia].
Qed.

Lemma re_digit_hit a r : 0 ≤ a ≤ 9 → re_digit (48 + a :: r) = [(a, r)].
Proof. intros Ha. unfold re_digit. by rewrite decimal_value_digit. Qed.

Lemma re_range_hit lo hi a r :
  lo ≤ a ≤ hi → re_range lo hi (48 + a :: r) = [(a, r)].
Proof.
  intros Ha. unfold re_range. cbn zeta.
  replace (48 + a - 48) with a by lia.
  destruct ((lo <=? a) && (a <=? hi)) eqn:H; [done|lia].
Qed.

Lemma re_range_miss lo hi a r :
  a < lo ∨ hi < a → re_range lo hi (48 + a :: r) = [].
Proof.
  intros Ha. unfold re_range. cbn zeta.
  replace (48 + a - 48) with a by lia.
  destruct ((lo <=? a) && (a <=? hi)) eqn:H; [lia|done].
Qed.

Lemma re_two_hit p q a b s r r' :
  p s = [(a, r)] → q r = [(b, r')] → re_two p q s = [(10 * a + b, r')].
Proof. intros Hp Hq. unfold re_two. rewrite Hp. cbn. rewrite Hq. done. Qed.

Lemma re_two_miss p q s : p s = [] → re_two p q s = [].
Proof. intros Hp. unfold re_two. by rewrite Hp. Qed.

Lemma re_alt_cons {A} (p : matcher A) ps s :
  re_alt (p :: ps) s = p s ++ re_alt ps s.
Proof. reflexivity. Qed.

(** A matcher starts with a match when that match is its first one. *)
Definition starts {A} (matches : list (A * list Z)) (x : A) (r : list Z) : Prop :=
  ∃ others, matches = (x, r) :: others.

Lemma starts_bind {A B} (matches : list (A * list Z))
    (f : A * list Z → list (B * list Z)) x r y r' :
  starts matches x r → starts (f (x, r)) y r' → starts (matches ≫= f) y r'.
Proof.
  intros [o ->] [o' H]. exists (o' ++ (o ≫= f)). cbn. by rewrite H.
Qed.

Lemma starts_hit {A} (x : A) r : starts [(x, r)] x r.
Proof. by exists []. Qed.

Lemma starts_alt_hit {A} (p : matcher A) ps s x r :
  p s = [(x, r)] → starts (re_alt (p :: ps) s) x r.
Proof. intros H. rewrite re_alt_cons, H. by eexists. Qed.

Lemma starts_alt_miss {A} (p : matcher A) ps s x r :
  p s = [] → starts (re_alt ps s) x r → starts (re_alt (p :: ps) s) x r.
Proof. intros H. by rewrite re_alt_cons, H. Qed.

Lemma tens_units n : 0 ≤ n ≤ 99 → 0 ≤ n / 10 ≤ 9 ∧ 0 ≤ n mod 10 ≤ 9 ∧ 10 * (n / 10) + n mod 10 = n.
Proof. intros Hn. Z.div_mod_to_equations. lia. Qed.

Lemma chars_ascii c s : code c < 192 → chars (String c s) = code c :: chars s.
Proof.
  intros Hc. unfold chars. cbn [list_ascii_of_string utf8_decode]. cbn zeta.
  destruct (code c <? 192) eqn:H; [done|lia].
Qed.

Lemma chars_two_digits n s :
  0 ≤ n ≤ 99 →
  chars (two_digits n +:+ s) = 48 + n / 10 :: 48 + n mod 10 :: chars s.
Proof.
  intros Hn. destruct (tens_units n Hn) as (Ha & Hb & _). unfold two_digits.
  by rewrite !append_String, append_empty, !chars_digit.
Qed.

Lemma hundreds n :
  0 ≤ n ≤ 9999 →
  0 ≤ n / 100 ≤ 99 ∧ 0 ≤ n mod 100 ≤ 99 ∧ 100 * (n / 100) + n mod 100 = n.
Proof. intros Hn. Z.div_mod_to_equations. lia. Qed.

Lemma chars_four_digits n s :
  0 ≤ n ≤ 9999 →
  chars (four_digits n +:+ s)
  = 48 + n / 100 / 10 :: 48 + (n / 100) mod 10
    :: 48 + n mod 100 / 10 :: 48 + (n mod 100) mod 10 :: chars s.
Proof.
  intros Hn. destruct (hundreds n Hn) as (Hh & Hl & _). unfold four_digits.
  destruct (tens_units _ Hh) as (Ha & Hb & _). unfold two_digits at 1.
  rewrite !append_String, append_empty, !chars_digit by done.
  by rewrite chars_two_digits.
Qed.

(** The two digits of a number below a hundred, named. *)
Ltac digits n a b :=
  let Ha := fresh "H" a in
  let Hb := fresh "H" b in
  let Hn := fresh "H" a b in
  let Hr := fresh in
  assert (0 ≤ n ≤ 99) as Hr by lia;
  destruct (tens_units n Hr) as (Ha & Hb & Hn); clear Hr;
  generalize dependent (n / 10); intros a Ha;
  generalize dependent (n mod 10); intros b Hb Hn.

Lemma list_bind_one {A B} (x : A) (f : A → list B) : [x] ≫= f = f x.
Proof. cbn. apply app_nil_r. Qed.

Lemma re_digits_hit a b r :
  0 ≤ a ≤ 9 → 0 ≤ b ≤ 9 →
  re_two re_digit re_digit (48 + a :: 48 + b :: r) = [(10 * a + b, r)].
Proof. intros Ha Hb. eapply re_two_hit; by apply re_digit_hit. Qed.

Lemma re_Y_canonical y r :
  0 ≤ y ≤ 9999 →
  re_Y (48 + y / 100 / 10 :: 48 + (y / 100) mod 10
        :: 48 + y mod 100 / 10 :: 48 + (y mod 100) mod 10 :: r) = [(y, r)].
Proof.
  intros Hy. destruct (hundreds y Hy) as (Hh & Hl & Hsum).
  destruct (tens_units _ Hh) as (? & ? & Hhs), (tens_units _ Hl) as (? & ? & Hls).
  unfold re_Y. rewrite re_digits_hit, list_bind_one by done.
  rewrite re_digits_hit, list_bind_one by done. by rewrite Hhs, Hls, Hsum.
Qed.

Lemma re_m_canonical m r :
  1 ≤ m ≤ 12 → starts (re_m (48 + m / 10 :: 48 + m mod 10 :: r)) m r.
Proof.
  intros Hm. digits m a b. subst m. unfold re_m.
  destruct (decide (a = 1)) as [->|].
  - apply starts_alt_hit. eapply re_two_hit; apply re_range_hit; lia.
  - apply starts_alt_miss; [apply re_two_miss, re_range_miss; lia|].
    apply starts_alt_hit. eapply re_two_hit; apply re_range_hit; lia.
Qed.

Lemma re_d_canonical d r :
  1 ≤ d ≤ 31 → starts (re_d (48 + d / 10 :: 48 + d mod 10 :: r)) d r.
Proof.
  intros Hd. digits d a b. subst d. unfold re_d.
  destruct (decide (a = 3)) as [->|].
  { apply starts_alt_hit. eapply re_two_hit; apply re_range_hit; lia. }
  apply starts_alt_miss; [apply re_two_miss, re_range_miss; lia|].
  destruct (decide (a = 0)) as [->|].
  - apply starts_alt_miss; [apply re_two_miss, re_range_miss; lia|].
    apply starts_alt_hit. eapply re_two_hit; apply re_range_hit; lia.
  - apply starts_alt_hit.
    eapply re_two_hit; [apply re_range_hit; lia|by apply re_digit_hit].
Qed.

Lemma re_H_canonical h r :
  0 ≤ h ≤ 23 → starts (re_H (48 + h / 10 :: 48 + h mod 10 :: r)) h r.
Proof.
  intros Hh. digits h a b. subst h. unfold re_H.
  destruct (decide (a = 2)) as [->|].
  - apply starts_alt_hit. eapply re_two_hit; apply re_range_hit; lia.
  - apply starts_alt_miss; [apply re_two_miss, re_range_miss; lia|].
    apply starts_alt_hit.
    eapply re_two_hit; [apply re_range_hit; lia|by apply re_digit_hit].
Qed.

Lemma re_M_canonical n r :
  0 ≤ n ≤ 59 → starts (re_M (48 + n / 10 :: 48 + n mod 10 :: r)) n r.
Proof.
  intros Hn. digits n a b. subst n. unfold re_M.
  apply starts_alt_hit.
  eapply re_two_hit; [apply re_range_hit; lia|by apply re_digit_hit].
Qed.

Lemma re_S_canonical n r :
  0 ≤ n ≤ 59 → starts (re_S (48 + n / 10 :: 48 + n mod 10 :: r)) n r.
Proof.
  intros Hn. digits n a b. subst n. unfold re_S.
  apply starts_alt_miss; [apply re_two_miss, re_range_miss; lia|].
  apply starts_alt_hit.
  eapply re_two_hit; [apply re_range_hit; lia|by apply re_digit_hit].
Qed.

Lemma re_lit_hit (c : ascii) r : re_lit c (code c :: r) = [((), r)].
Proof. unfold re_lit. by rewrite Z.eqb_refl. Qed.

Lemma re_spaces_one a r :
  0 ≤ a ≤ 9 → re_spaces (32 :: 48 + a :: r) = [((), 48 + a :: r)].
Proof.
  intros Ha. cbn [re_spaces]. cbn [is_space Z.leb Z.eqb Z.compare Pos.compare Pos.compare_cont andb orb].
  assert (is_space (48 + a) = false) as ->; [|done].
  unfold is_space. lia.
Qed.

Lemma days_in_month_bounds y m : 28 ≤ days_in_month y m ≤ 31.
Proof.
  unfold days_in_month.
  repeat match goal with |- context [if ?c then _ else _] => destruct c end; lia.
Qed.

Lemma datetime_ok_bounds d :
  datetime_ok d = true ↔
  1 ≤ year d ≤ 9999 ∧ 1 ≤ month d ≤ 12
  ∧ 1 ≤ day d ≤ days_in_month (year d) (month d)
  ∧ 0 ≤ hour d ≤ 23 ∧ 0 ≤ minute d ≤ 59 ∧ 0 ≤ second d ≤ 59.
Proof. unfold datetime_ok. rewrite !andb_true_iff, !Z.leb_le. tauto. Qed.

(** The canonical text of an instant, character by character. *)
Lemma chars_isoformat d :
  datetime_ok d = true →
  chars (isoformat d)
  = 48 + year d / 100 / 10 :: 48 + (year d / 100) mod 10
    :: 48 + year d mod 100 / 10 :: 48 + (year d mod 100) mod 10
    :: 45 :: 48 + month d / 10 :: 48 + month d mod 10
    :: 45 :: 48 + day d / 10 :: 48 + day d mod 10
    :: 32 :: 48 + hour d / 10 :: 48 + hour d mod 10
    :: 58 :: 48 + minute d / 10 :: 48 + minute d mod 10
    :: 58 :: 48 + second d / 10 :: 48 + second d mod 10 :: [].
Proof.
  intros (Hy & Hm & Hd & Hh & Hmi & Hs)%datetime_ok_bounds.
  pose proof (days_in_month_bounds (year d) (month d)).
  unfold isoformat, month_to_second.
  rewrite pad4_four_digits, !pad2_two_digits by lia.
  replace (two_digits (second d)) with (two_digits (second d) +:+ "")
    by (unfold two_digits; by rewrite !append_String, append_empty).
  rewrite chars_four_digits by lia.
  repeat (rewrite append_String, append_empty, chars_ascii by (vm_compute; reflexivity);
          rewrite chars_two_digits by lia).
  reflexivity.
Qed.

Lemma re_format_canonical d :
  datetime_ok d = true → starts (re_format (chars (isoformat d))) d [].
Proof.
  intros Hok. rewrite chars_isoformat by done.
  apply datetime_ok_bounds in Hok as (Hy & Hm & Hd & Hh & Hmi & Hs).
  pose proof (days_in_month_bounds (year d) (month d)).
  unfold re_format.
  eapply starts_bind; [rewrite re_Y_canonical by lia; apply starts_hit|].
  eapply starts_bind; [rewrite (re_lit_hit "-"); apply starts_hit|].
  eapply starts_bind; [apply re_m_canonical; lia|].
  eapply starts_bind; [rewrite (re_lit_hit "-"); apply starts_hit|].
  eapply starts_bind; [apply re_d_canonical; lia|].
  eapply starts_bind.
  { assert (0 ≤ hour d / 10 ≤ 9) by (Z.div_mod_to_equations; lia).
    rewrite re_spaces_one by done. apply starts_hit. }
  eapply starts_bind; [apply re_H_canonical; lia|].
  eapply starts_bind; [rewrite (re_lit_hit ":"); apply starts_hit|].
  eapply starts_bind; [apply re_M_canonical; lia|].
  eapply starts_bind; [rewrite (re_lit_hit ":"); apply starts_hit|].
  eapply starts_bind; [apply re_S_canonical; lia|].
  destruct d. apply starts_hit.
Qed.

(** Parsing reads back what [str] prints. *)
Lemma strptime_isoformat d : datetime_ok d = true → strptime (isoformat d) = Ok d.
Proof.
  intros Hok. unfold strptime.
  destruct (re_format_canonical d Hok) as [others ->]. by rewrite Hok.
Qed.

(** From year 1000 on, [strftime] prints the canonical text. *)
Lemma strftime_isoformat d : 1000 ≤ year d → strftime d = isoformat d.
Proof.
  intros Hy. unfold strftime, isoformat, pad4.
  repeat match goal with |- context [?a <? ?b] => destruct (Z.ltb_spec a b); [lia|] end.
  done.
Qed.

(** *** Canonical texts compare as their instants do *)

Lemma compare_digit a b s t :
  0 ≤ a ≤ 9 → 0 ≤ b ≤ 9 →
  String.compare (String (digit a) s) (String (digit b) t)
  = match a ?= b with Eq => String.compare s t | c => c end.
Proof.
  intros Ha Hb. cbn [String.compare]. unfold Ascii.compare, digit.
  rewrite !N_ascii_embedding by lia.
  rewrite Z2N.inj_compare, Z.add_compare_mono_l by lia. done.
Qed.

Lemma compare_same c s t :
  String.compare (String c s) (String c t) = String.compare s t.
Proof. cbn [String.compare]. unfold Ascii.compare. by rewrite N.compare_refl. Qed.

Lemma compare_two_digits n m s t :
  0 ≤ n ≤ 99 → 0 ≤ m ≤ 99 →
  String.compare (two_digits n +:+ s) (two_digits m +:+ t)
  = match n ?= m with Eq => String.compare s t | c => c end.
Proof.
  intros Hn Hm. unfold two_digits. rewrite !append_String, !append_empty.
  destruct (tens_units n Hn) as (? & ? & ?), (tens_units m Hm) as (? & ? & ?).
  rewrite !compare_digit by done.
  destruct (Z.compare_spec (n / 10) (m / 10)),
    (Z.compare_spec (n mod 10) (m mod 10)), (Z.compare_spec n m);
    solve [done | lia].
Qed.

Lemma compare_four_digits n m s t :
  0 ≤ n ≤ 9999 → 0 ≤ m ≤ 9999 →
  String.compare (four_digits n +:+ s) (four_digits m +:+ t)
  = match n ?= m with Eq => String.compare s t | c => c end.
Proof.
  intros Hn Hm. unfold four_digits.
  destruct (hundreds n Hn) as (? & ? & ?), (hundreds m Hm) as (? & ? & ?).
  assert (∀ a b u, (two_digits a +:+ two_digits b) +:+ u
                   = two_digits a +:+ (two_digits b +:+ u)) as Hassoc.
  { intros a b u. unfold two_digits. by rewrite !append_String, !append_empty. }
  rewrite !Hassoc, !compare_two_digits by done.
  destruct (Z.compare_spec (n / 100) (m / 100)),
    (Z.compare_spec (n mod 100) (m mod 100)), (Z.compare_spec n m);
    solve [done | lia].
Qed.

(** The calendar: a year is as long as its months, and the months follow
    one another. *)
Lemma year_length y :
  days_before_year (y + 1) = days_before_year y + (if is_leap y then 366 else 365).
Proof.
  unfold days_before_year, is_leap. cbn zeta.
  replace (y + 1 - 1) with y by lia.
  destruct (Z.eqb_spec (y mod 4) 0), (Z.eqb_spec (y mod 100) 0),
    (Z.eqb_spec (y mod 400) 0); cbn [andb orb negb];
    Z.div_mod_to_equations; lia.
Qed.

Lemma days_before_year_mono y1 y2 :
  y1 ≤ y2 → days_before_year y1 ≤ days_before_year y2.
Proof.
  intros H. replace y2 with (y1 + Z.of_nat (Z.to_nat (y2 - y1))) by lia.
  induction (Z.to_nat (y2 - y1)) as [|n IH]; [by rewrite Z.add_0_r|].
  replace (y1 + Z.of_nat (S n)) with (y1 + Z.of_nat n + 1) by lia.
  rewrite year_length. destruct (is_leap _); lia.
Qed.

Lemma month_cases m :
  1 ≤ m ≤ 12 →
  m = 1 ∨ m = 2 ∨ m = 3 ∨ m = 4 ∨ m = 5 ∨ m = 6
  ∨ m = 7 ∨ m = 8 ∨ m = 9 ∨ m = 10 ∨ m = 11 ∨ m = 12.
Proof. lia. Qed.

Ltac calendar :=
  repeat match goal with
         | |- context [Z.to_nat ?e] =>
             let v := eval vm_compute in (Z.to_nat e) in
             change (Z.to_nat e) with v
         end;
  cbn; lia.

Lemma day_of_year_bounds y m d :
  1 ≤ m ≤ 12 → 1 ≤ d ≤ days_in_month y m →
  1 ≤ days_before_month y m + d ≤ (if is_leap y then 366 else 365).
Proof.
  intros Hm. unfold days_before_month, days_in_month.
  destruct (month_cases m Hm) as [->|[->|[->|[->|[->|[->|[->|[->|[->|[->|[->| ->]]]]]]]]]]];
    destruct (is_leap y); calendar.
Qed.

Lemma months_follow y m1 m2 :
  1 ≤ m1 → m1 < m2 → m2 ≤ 12 →
  days_before_month y m1 + days_in_month y m1 ≤ days_before_month y m2.
Proof.
  intros H1 H12 H2. unfold days_before_month, days_in_month.
  destruct (month_cases m1 ltac:(lia)) as [->|[->|[->|[->|[->|[->|[->|[->|[->|[->|[->| ->]]]]]]]]]]];
    destruct (month_cases m2 ltac:(lia)) as [->|[->|[->|[->|[->|[->|[->|[->|[->|[->|[->| ->]]]]]]]]]]];
    try lia; destruct (is_leap y); calendar.
Qed.

(** Instants compare field by field, the year first. *)
Lemma to_seconds_compare d1 d2 :
  datetime_ok d1 = true → datetime_ok d2 = true →
  (to_seconds d1 ?= to_seconds d2)
  = match year d1 ?= year d2 with Eq =>
    match month d1 ?= month d2 with Eq =>
    match day d1 ?= day d2 with Eq =>
    match hour d1 ?= hour d2 with Eq =>
    match minute d1 ?= minute d2 with Eq =>
      second d1 ?= second d2
    | c => c end | c => c end | c => c end | c => c end | c => c end.
Proof.
  intros (Hy1 & Hm1 & Hd1 & ? & ? & ?)%datetime_ok_bounds
         (Hy2 & Hm2 & Hd2 & ? & ? & ?)%datetime_ok_bounds.
  destruct d1 as [y1 m1 day1 h1 mi1 s1], d2 as [y2 m2 day2 h2 mi2 s2].
  unfold to_seconds, toordinal. cbn [year month day hour minute second] in *.
  pose proof (day_of_year_bounds y1 m1 day1 Hm1 Hd1).
  pose proof (day_of_year_bounds y2 m2 day2 Hm2 Hd2).
  destruct (Z.compare_spec y1 y2) as [->|Hy|Hy].
  - destruct (Z.compare_spec m1 m2) as [->|Hm|Hm].
    + destruct (Z.compare_spec day1 day2) as [->|?|?].
      * destruct (Z.compare_spec h1 h2) as [->|?|?].
        -- destruct (Z.compare_spec mi1 mi2) as [->|?|?].
           ++ by rewrite !Z.add_compare_mono_l.
           ++ apply Z.compare_lt_iff. lia.
           ++ apply Z.compare_gt_iff. lia.
        -- apply Z.compare_lt_iff. lia.
        -- apply Z.compare_gt_iff. lia.
      * apply Z.compare_lt_iff. lia.
      * apply Z.compare_gt_iff. lia.
    + pose proof (months_follow y2 m1 m2 ltac:(lia) Hm ltac:(lia)).
      apply Z.compare_lt_iff. lia.
    + pose proof (months_follow y2 m2 m1 ltac:(lia) Hm ltac:(lia)).
      apply Z.compare_gt_iff. lia.
  - pose proof (year_length y1). pose proof (days_before_year_mono (y1 + 1) y2 ltac:(lia)).
    apply Z.compare_lt_iff. destruct (is_leap y1); lia.
  - pose proof (year_length y2). pose proof (days_before_year_mono (y2 + 1) y1 ltac:(lia)).
    apply Z.compare_gt_iff. destruct (is_leap y2); lia.
Qed.

Lemma isoformat_compare d1 d2 :
  datetime_ok d1 = true → datetime_ok d2 = true →
  String.compare (isoformat d1) (isoformat d2) = (to_seconds d1 ?= to_seconds d2).
Proof.
  intros Hok1 Hok2. rewrite to_seconds_compare by done.
  apply datetime_ok_bounds in Hok1 as (? & ? & ? & ? & ? & ?).
  apply datetime_ok_bounds in Hok2 as (? & ? & ? & ? & ? & ?).
  pose proof (days_in_month_bounds (year d1) (month d1)).
  pose proof (days_in_month_bounds (year d2) (month d2)).
  unfold isoformat, month_to_second.
  rewrite !pad4_four_digits, !pad2_two_digits by lia.
  replace (two_digits (second d1)) with (two_digits (second d1) +:+ "")
    by (unfold two_digits; by rewrite !append_String, append_empty).
  replace (two_digits (second d2)) with (two_digits (second d2) +:+ "")
    by (unfold two_digits; by rewrite !append_String, append_empty).
  rewrite compare_four_digits by lia.
  rewrite !append_String, !append_empty.
  repeat (rewrite compare_same; rewrite compare_two_digits by lia).
  cbn [String.compare].
  repeat match goal with |- context [?a ?= ?b] => destruct (a ?= b) end; done.
Qed.

(** *** The normalizer and the merger on canonical timestamps *)

(** An event stamped with the canonical text of the instant [d]: what
    [str] prints and, from year 1000 on, what [strftime] prints. *)
Definition stamped (d : datetime) (evidence : record) : Prop :=
  datetime_ok d = true ∧ evidence !! "timestamp" = Some (VStr (isoformat d)).

Lemma normalize_record_stamped evidence d :
  stamped d evidence → normalize_record evidence = Ok (tagged_valid evidence d).
Proof.
  intros [Hok Hts]. unfold normalize_record, getitem. rewrite Hts. cbn.
  by rewrite strptime_isoformat.
Qed.

Lemma instant_of_stamped evidence d : stamped d evidence → instant_of evidence = Some d.
Proof.
  intros H. unfold instant_of. rewrite (normalize_record_stamped _ d H).
  unfold tagged_valid. rewrite lookup_insert_ne by done.
  by rewrite lookup_insert_eq.
Qed.

(** The normalizer reads the instant back from a canonical timestamp:
    the record is tagged valid, with that instant. *)
Theorem normalizer_reads_back_canonical_timestamp (evidence : record) (d : datetime) :
  datetime_ok d = true →
  evidence !! "timestamp" = Some (VStr (isoformat d))
  ∨ (1000 ≤ year d ∧ evidence !! "timestamp" = Some (VStr (strftime d))) →
  normalize_record evidence = Ok (tagged_valid evidence d)
  ∧ parse_timestamp evidence = Some d.
Proof.
  intros Hok Hts.
  assert (evidence !! "timestamp" = Some (VStr (isoformat d))) as H.
  { destruct Hts as [|[Hy Hts]]; [done|]. by rewrite <- strftime_isoformat. }
  split; [by apply normalize_record_stamped|].
  unfold parse_timestamp. by rewrite H, strptime_isoformat.
Qed.

Lemma normalizer_reads_back_canonical_timestamp_witness :
  normalize_record (event (Some "2023-06-01 14:22:03") "incoming" "hello")
  = Ok (tagged_valid (event (Some "2023-06-01 14:22:03") "incoming" "hello")
          (mkdt 2023 6 1 14 22 3))
  ∧ parse_timestamp (event (Some "2023-06-01 14:22:03") "incoming" "hello")
    = Some (mkdt 2023 6 1 14 22 3).
Proof.
  apply (normalizer_reads_back_canonical_timestamp
           (event (Some "2023-06-01 14:22:03") "incoming" "hello")
           (mkdt 2023 6 1 14 22 3)).
  - reflexivity.
  - left. vm_compute. reflexivity.
Defined.

Section CanonicalTimeline.
Import TimelineBuilder.
Variable load : string → option (list record).

Definition canonical (evidence : record) : Prop := ∃ d, stamped d evidence.

Lemma canonical_text_timestamp evidence : canonical evidence → text_timestamp evidence.
Proof. intros (d & _ & H) v Hv. rewrite H in Hv. injection Hv as <-. by eexists. Qed.

Lemma stamped_add_source source evidence d :
  stamped d evidence → stamped d (add_source source evidence).
Proof.
  intros [Hok H]. split; [done|]. unfold add_source.
  destruct (evidence !! "source"); [done|]. by rewrite lookup_insert_ne.
Qed.

Lemma canonical_all_events :
  (∀ file events, load file = Some events → Forall canonical events) →
  Forall canonical (all_events load).
Proof.
  intros Hload. unfold all_events.
  induction evidence_files as [|f fs IH]; cbn; [constructor|].
  apply Forall_app. split; [|done].
  unfold events_of. destruct (load f.1) as [events|] eqn:Hf; [|constructor].
  apply Forall_map. eapply Forall_impl; [by eapply Hload|].
  intros e [d H]. exists d. by apply stamped_add_source.
Qed.

Lemma stamped_number n evidence d :
  stamped d evidence → stamped d (<["timeline_order" := VInt n]> evidence).
Proof. intros [Hok H]. split; [done|]. by rewrite lookup_insert_ne. Qed.

Lemma stamped_sort_key evidence d : stamped d evidence → sort_key evidence = isoformat d.
Proof. intros [_ H]. unfold sort_key, get. by rewrite H. Qed.

Lemma isoformat_le d1 d2 :
  datetime_ok d1 = true → datetime_ok d2 = true →
  String.le (isoformat d1) (isoformat d2) → to_seconds d1 ≤ to_seconds d2.
Proof.
  intros Hok1 Hok2. unfold String.le, String.leb.
  rewrite isoformat_compare by done.
  destruct (Z.compare_spec (to_seconds d1) (to_seconds d2)); [lia|lia|done].
Qed.

(** When every loaded event carries a canonical timestamp, the merged
    timeline is in chronological order and every event of it has its
    instant: on such input the text sort is the sort by instant. *)
Theorem canonical_timeline_is_chronological :
  (∀ file events, load file = Some events → Forall canonical events) →
  chronological (build_unified_timeline load)
  ∧ Forall (λ e, is_Some (instant_of e)) (build_unified_timeline load).
Proof.
  intros Hload. pose proof (canonical_all_events Hload) as Hall.
  destruct (sort_events_spec (all_events load)) as (Hperm & Hsorted & _).
  { eapply Forall_impl; [exact Hall|]. apply canonical_text_timestamp. }
  assert (Forall canonical (sort_events_chronologically (all_events load))) as Hcan
    by by rewrite Hperm.
  assert (∀ i a, build_unified_timeline load !! i = Some a →
            ∃ a0 d, sort_events_chronologically (all_events load) !! i = Some a0
                    ∧ stamped d a0 ∧ stamped d a) as Hat.
  { intros i a (a0 & Ha0 & ->)%lookup_number.
    rewrite Forall_forall in Hcan.
    destruct (Hcan a0) as [d Hd]; [by eapply list_elem_of_lookup_2|].
    exists a0, d. split; [done|]. split; [done|]. by apply stamped_number. }
  split.
  - intros i j a b Hij Ha Hb.
    destruct (Hat i a Ha) as (a0 & da & Ha0 & Hda0 & Hda).
    destruct (Hat j b Hb) as (b0 & db & Hb0 & Hdb0 & Hdb).
    rewrite (instant_of_stamped a da Hda), (instant_of_stamped b db Hdb).
    pose proof (StronglySorted_lookup _ _ i j a0 b0 Hsorted Hij Ha0 Hb0) as Hle.
    cbn in Hle.
    rewrite (stamped_sort_key a0 da Hda0), (stamped_sort_key b0 db Hdb0) in Hle.
    apply isoformat_le; [apply Hda|apply Hdb|done].
  - apply Forall_lookup. intros i a Ha.
    destruct (Hat i a Ha) as (a0 & da & _ & _ & Hda).
    rewrite (instant_of_stamped a da Hda). by eexists.
Qed.
End CanonicalTimeline.

(** Two files whose events interleave in time. *)
Definition interleaved (file : string) : option (list record) :=
  if String.eqb file "../evidence/processed/sms.json" then
    Some [event (Some "2023-06-02 09:00:00") "incoming" "second";
          event (Some "2023-06-01 23:59:59") "incoming" "first"]
  else if String.eqb file "../evidence/processed/calls.json" then
    Some [event (Some "2023-06-01 10:30:00") "outgoing" "call"]
  else None.

Lemma canonical_timeline_is_chronological_witness :
  chronological (TimelineBuilder.build_unified_timeline interleaved)
  ∧ Forall (λ e, is_Some (instant_of e))
      (TimelineBuilder.build_unified_timeline interleaved).
Proof.
  apply (canonical_timeline_is_chronological interleaved).
  intros file events H. unfold interleaved in H.
  destruct (String.eqb file _).
  { injection H as <-. repeat constructor.
    - exists (mkdt 2023 6 2 9 0 0). split; vm_compute; reflexivity.
    - exists (mkdt 2023 6 1 23 59 59). split; vm_compute; reflexivity. }
  destruct (String.eqb file _); [|discriminate].
  injection H as <-. repeat constructor.
  exists (mkdt 2023 6 1 10 30 0). split; vm_compute; reflexivity.
Defined.
End Canonical.

(** ** When the merger cannot sort *)

Section TimelineUnsorted.
Import TimelineBuilder.
Variable load : string → option (list record).

Lemma elem_of_all_events file source events e :
  (file, source) ∈ evidence_files → load file = Some events → e ∈ events →
  add_source source e ∈ all_events load.
Proof.
  intros Hf Hload He. unfold all_events.
  apply list_elem_of_In, in_concat. exists (events_of load (file, source)). split.
  - apply list_elem_of_In. by apply (list_elem_of_fmap_2 (events_of load)).
  - apply list_elem_of_In. unfold events_of. cbn. rewrite Hload.
    by apply list_elem_of_fmap_2.
Qed.

Lemma sort_events_None events e :
  (2 ≤ length events)%nat → e ∈ events → e !! "timestamp" = Some VNone →
  sort_events_chronologically events = events.
Proof.
  intros Hlen He Hts. unfold sort_events_chronologically.
  rewrite (sorted_None (λ x, get x "timestamp" (VStr "")) events e); [done..|].
  unfold get. by rewrite Hts.
Qed.

(** A timestamp that is JSON [null] in one of two or more loaded events
    makes the sort raise; the merger catches it and the timeline is the
    events in load order, numbered. *)
Theorem null_timestamp_leaves_load_order
    (file source : string) (events : list record) (e : record) :
  (file, source) ∈ evidence_files → load file = Some events → e ∈ events →
  e !! "timestamp" = Some VNone →
  (2 ≤ length (all_events load))%nat →
  build_unified_timeline load = number (all_events load).
Proof.
  intros Hf Hload He Hts Hlen. unfold build_unified_timeline. f_equal.
  apply (sort_events_None _ (add_source source e)); [done| |].
  - by eapply elem_of_all_events.
  - unfold add_source. destruct (e !! "source"); [done|].
    by rewrite lookup_insert_ne.
Qed.
End TimelineUnsorted.

(** One SMS file: a message whose timestamp is [null] after a dated one
    that is later than the call of the other file. *)
Definition sms_with_null (file : string) : option (list record) :=
  if String.eqb file "../evidence/processed/sms.json" then
    Some [event (Some "2023-06-02 09:00:00") "incoming" "late";
          <["timestamp" := VNone]> (event None "incoming" "null")]
  else if String.eqb file "../evidence/processed/calls.json" then
    Some [event (Some "2023-06-01 10:30:00") "outgoing" "call"]
  else None.

Lemma null_timestamp_leaves_load_order_witness :
  TimelineBuilder.build_unified_timeline sms_with_null
  = TimelineBuilder.number (TimelineBuilder.all_events sms_with_null).
Proof.
  apply (null_timestamp_leaves_load_order sms_with_null
           "../evidence/processed/sms.json" "SMS"
           [event (Some "2023-06-02 09:00:00") "incoming" "late";
            <["timestamp" := VNone]> (event None "incoming" "null")]
           (<["timestamp" := VNone]> (event None "incoming" "null"))).
  - left.
  - reflexivity.
  - right. left.
  - reflexivity.
  - vm_compute. lia.
Defined.

(** ** What the battery hands to the report *)

Section BatteryFindings.
Import AnomalyAnalysis Report.

Definition anomaly_types : list string :=
  ["timestamp_gap"; "post_deletion_activity"; "future_timestamp";
   "missing_fields"; "duplicate_event"].

(** A finding as the rules build them: stamped with the clock, naming one
    of the sources and one of the five types. *)
Definition finding_of (now : datetime) (sources : list string) (a : record) : Prop :=
  ∃ source type details,
    a = anomaly now source type details
    ∧ source ∈ sources ∧ type ∈ anomaly_types.

Lemma finding_of_anomaly now sources source type details :
  source ∈ sources → type ∈ anomaly_types →
  finding_of now sources (anomaly now source type details).
Proof. intros. by exists source, type, details. Qed.

Lemma mapM_Forall_concat {A B} (P : B → Prop) (f : A → result (list B)) l rs :
  (∀ x r, x ∈ l → f x = Ok r → Forall P r) →
  mapM f l = Ok rs → Forall P (concat rs).
Proof.
  intros Hf H. apply mapM_Ok_Forall2 in H.
  induction H as [|x r l rs Hx _ IH]; cbn; [constructor|].
  apply Forall_app. split.
  - eapply Hf; [left|done].
  - apply IH. intros y ry Hy. apply Hf. by right.
Qed.

Lemma bind_Ok {A B} (m : result A) (f : A → result B) b :
  m ≫= f = Ok b → ∃ a, m = Ok a ∧ f a = Ok b.
Proof. destruct m as [a|]; [|done]. intros H. by exists a. Qed.

Lemma gap_check_findings now sources source prev_event curr_event r :
  source ∈ sources →
  gap_check now source prev_event curr_event = Ok r →
  Forall (finding_of now sources) r.
Proof.
  intros Hs H. unfold gap_check in H.
  apply bind_Ok in H as (c & _ & H). apply bind_Ok in H as (p & _ & H).
  apply bind_Ok in H as (time_diff & _ & H).
  destruct (_ >? _); [|injection H as <-; constructor].
  apply bind_Ok in H as (pt & _ & H). apply bind_Ok in H as (ct & _ & H).
  injection H as <-. repeat constructor.
  apply finding_of_anomaly; [done|]. unfold anomaly_types. set_solver.
Qed.

Lemma gap_scan_findings now sources source valid_evidence r :
  source ∈ sources →
  gap_scan now source valid_evidence = Ok r →
  Forall (finding_of now sources) r.
Proof.
  intros Hs. revert r.
  induction valid_evidence as [|prev_event [|curr_event rest] IH]; intros r H;
    [injection H as <-; constructor..|].
  rewrite gap_scan_cons in H.
  apply bind_Ok in H as (a & Ha & H). apply bind_Ok in H as (r' & Hr & H).
  injection H as <-. apply Forall_app. split.
  - by eapply gap_check_findings.
  - by apply IH.
Qed.

Lemma gaps_of_source_findings now sources source evidence_list r :
  source ∈ sources →
  gaps_of_source now source evidence_list = Ok r →
  Forall (finding_of now sources) r.
Proof.
  intros Hs H. unfold gaps_of_source in H. cbn zeta in H.
  destruct (_ <? _)%nat; [injection H as <-; constructor|].
  apply bind_Ok in H as (l & _ & H). by eapply gap_scan_findings.
Qed.

Lemma deletion_check_findings now sources source evidence_list deletion_time r :
  source ∈ sources →
  deletion_check now source evidence_list deletion_time = Ok r →
  Forall (finding_of now sources) r.
Proof.
  intros Hs H. unfold deletion_check in H.
  apply bind_Ok in H as (flags & _ & H). cbn zeta in H.
  destruct (List.filter _ flags); [injection H as <-; constructor|].
  apply bind_Ok in H as (at_time & _ & H). injection H as <-.
  repeat constructor. apply finding_of_anomaly; [done|].
  unfold anomaly_types. set_solver.
Qed.

Lemma future_check_findings now sources source evidence r :
  source ∈ sources →
  future_check now source evidence = Ok r →
  Forall (finding_of now sources) r.
Proof.
  intros Hs H. unfold future_check in H.
  apply bind_Ok in H as (event_time & _ & H).
  apply bind_Ok in H as ([] & _ & H).
  - apply bind_Ok in H as (ts & _ & H).
    injection H as <-. repeat constructor. apply finding_of_anomaly; [done|].
    unfold anomaly_types. set_solver.
  - injection H as <-. constructor.
Qed.

Lemma inconsistencies_of_source_findings now sources source evidence_list :
  source ∈ sources →
  Forall (finding_of now sources)
         (inconsistencies_of_source now source evidence_list).
Proof.
  intros Hs. unfold inconsistencies_of_source. apply Forall_app. split.
  - apply Forall_concat, Forall_map, Forall_forall. intros e _.
    unfold missing_check. destruct (missing_fields e); repeat constructor.
    apply finding_of_anomaly; [done|]. unfold anomaly_types. set_solver.
  - apply Forall_concat, Forall_map, Forall_forall. intros [sig n] _.
    unfold duplicate_check. destruct (n >? 1); repeat constructor.
    apply finding_of_anomaly; [done|]. unfold anomaly_types. set_solver.
Qed.

Lemma source_listed (evidence_data : evidence_dict) source evidence_list :
  (source, evidence_list) ∈ evidence_data → source ∈ map fst evidence_data.
Proof. intros H. by apply (list_elem_of_fmap_2 fst) in H. Qed.

Lemma detect_timestamp_gaps_findings now evidence_data r :
  detect_timestamp_gaps now evidence_data = Ok r →
  Forall (finding_of now (map fst evidence_data)) r.
Proof.
  intros H. unfold detect_timestamp_gaps in H.
  apply bind_Ok in H as (rs & Hrs & H). injection H as <-.
  eapply mapM_Forall_concat; [|exact Hrs].
  intros [source evidence_list] r Hin Hr.
  eapply gaps_of_source_findings; [|exact Hr]. by eapply source_listed.
Qed.

Lemma detect_temporal_inconsistencies_findings now evidence_data r :
  detect_temporal_inconsistencies now evidence_data = Ok r →
  Forall (finding_of now (map fst evidence_data)) r.
Proof.
  intros H. unfold detect_temporal_inconsistencies in H.
  apply bind_Ok in H as (rs & Hrs & H). injection H as <-.
  eapply mapM_Forall_concat; [|exact Hrs].
  intros [source evidence_list] r Hin Hr.
  apply bind_Ok in Hr as (a & Ha & Hr). injection Hr as <-. eapply mapM_Forall_concat; [|exact Ha].
  intros e r _ He. eapply future_check_findings; [|exact He].
  by eapply source_listed.
Qed.

Lemma detect_data_inconsistencies_findings now evidence_data :
  Forall (finding_of now (map fst evidence_data))
         (detect_data_inconsistencies now evidence_data).
Proof.
  unfold detect_data_inconsistencies.
  apply Forall_concat, Forall_map, Forall_forall.
  intros [source evidence_list] Hin.
  apply inconsistencies_of_source_findings. by eapply source_listed.
Qed.

Lemma deletions_of_source_findings now sources source evidence_list r l :
  source ∈ sources →
  deletions_of_source now source evidence_list = Ok (r, l) →
  Forall (finding_of now sources) r.
Proof.
  intros Hs H. unfold deletions_of_source in H.
  apply bind_Ok in H as (sorted_list & _ & H).
  apply bind_Ok in H as (ts & _ & H). apply bind_Ok in H as (rs & Hrs & H).
  injection H as <- <-. eapply mapM_Forall_concat; [|exact Hrs].
  intros t r _ Ht. by eapply deletion_check_findings.
Qed.

Lemma detect_post_deletion_activity_findings now evidence_data r after :
  detect_post_deletion_activity now evidence_data = Ok (r, after) →
  Forall (finding_of now (map fst evidence_data)) r
  ∧ map fst after = map fst evidence_data.
Proof.
  intros H. unfold detect_post_deletion_activity in H.
  apply bind_Ok in H as (rs & Hrs & H).
  injection H as <- <-. apply mapM_Ok_Forall2 in Hrs.
  assert (∀ sources, map fst evidence_data ⊆ sources →
            Forall (finding_of now sources) (concat (map fst rs))) as Hall.
  { intros sources Hsub.
    induction Hrs as [|[source evidence_list] [a [s l]] data rs Hx _ IH];
      cbn; [constructor|].
    apply bind_Ok in Hx as ([a' l'] & Hd & Hx).
    injection Hx as <- <- <-. apply Forall_app. split.
    - eapply deletions_of_source_findings; [|exact Hd]. apply Hsub. cbn. left.
    - apply IH. intros x Hx. apply Hsub. cbn. by right. }
  split; [by apply Hall|]. clear Hall.
  induction Hrs as [|[source evidence_list] [a [s l]] data rs Hx _ IH];
    cbn; [done|].
  apply bind_Ok in Hx as ([a' l'] & _ & Hx).
  injection Hx as <- <- <-. by rewrite IH.
Qed.

Lemma normalize_timestamps_sources evidence_data normalized_data :
  normalize_timestamps evidence_data = Ok normalized_data →
  map fst normalized_data = map fst evidence_data.
Proof.
  intros H. unfold normalize_timestamps in H. apply mapM_Ok_Forall2 in H.
  induction H as [|[source evidence_list] [s l] data rs Hx _ IH]; cbn; [done|].
  apply bind_Ok in Hx as (normalized_evidence & _ & Hx).
  injection Hx as <- <-. by rewrite IH.
Qed.

Lemma battery_findings now evidence_data findings :
  run_battery now evidence_data = Ok findings →
  Forall (finding_of now (map fst evidence_data)) findings.
Proof.
  intros H. unfold run_battery in H.
  apply bind_Ok in H as (normalized_data & Hn & H).
  apply normalize_timestamps_sources in Hn.
  apply bind_Ok in H as (gaps & Hg & H).
  apply bind_Ok in H as ([deletions after] & Hd & H).
  apply bind_Ok in H as (temporal & Ht & H). injection H as <-.
  apply detect_timestamp_gaps_findings in Hg.
  apply detect_post_deletion_activity_findings in Hd as [Hd Hafter].
  apply detect_temporal_inconsistencies_findings in Ht.
  pose proof (detect_data_inconsistencies_findings now after) as Hdata.
  rewrite Hafter in Ht, Hdata. rewrite Hn in Hg, Hd, Ht, Hdata.
  by repeat (apply Forall_app; split).
Qed.

Lemma finding_of_categorized now sources a :
  finding_of now sources a → categorized a = true.
Proof. intros (source & type & details & -> & _). reflexivity. Qed.

Lemma anomaly_severity now source type details :
  type ∈ anomaly_types →
  severity_weights !! type = Some (severity_of (anomaly now source type details)).
Proof.
  intros Ht. unfold anomaly_types in Ht.
  repeat (apply elem_of_cons in Ht as [->|Ht]; [reflexivity|]).
  by apply elem_of_nil in Ht.
Qed.

(** Whatever the battery returns is fit for the report: every finding is
    stamped with the clock and names a source of the evidence and one of
    the five types of the severity table, so that no finding falls to the
    default tier and the assembler, which needs [type] and [source],
    returns the report. *)
Theorem battery_findings_fit_the_report
    (now later : datetime) (evidence_data : evidence_dict) (findings : list record) :
  run_battery now evidence_data = Ok findings →
  Forall (λ a, ∃ source type details,
               a = anomaly now source type details
               ∧ source ∈ map fst evidence_data
               ∧ severity_weights !! type = Some (severity_of a))
         findings
  ∧ ∃ r, generate_anomaly_report later findings
           (calculate_anomaly_severity findings) = Ok r
         ∧ Report.findings r = findings.
Proof.
  intros H. apply battery_findings in H. split.
  - eapply Forall_impl; [exact H|]. intros a Ha.
    destruct Ha as (source & type & details & -> & Hs & Ht).
    exists source, type, details. split; [done|]. split; [done|].
    by apply anomaly_severity.
  - pose proof (generate_anomaly_report_spec later findings
                  (calculate_anomaly_severity findings)) as Hr.
    assert (forallb categorized findings = true) as Hc.
    { apply forallb_forall. intros a Ha. rewrite Forall_forall in H.
      eapply finding_of_categorized, H. by apply list_elem_of_In. }
    rewrite Hc in Hr. destruct Hr as (r & Hr & Hf & _). eauto.
Qed.
End BatteryFindings.

(** What the battery finds in [unordered_evidence] at noon of the first
    day of 2024: the two messages lack their [source]. *)
Definition unordered_findings : list record :=
  [AnomalyAnalysis.anomaly (mkdt 2024 1 1 12 0 0) "SMS" "missing_fields"
     "Missing required fields: ['source'] in event 2023-06-01 09:00:00";
   AnomalyAnalysis.anomaly (mkdt 2024 1 1 12 0 0) "SMS" "missing_fields"
     "Missing required fields: ['source'] in event 2023-06-02 09:00:00"].

Lemma battery_findings_fit_the_report_witness :
  Forall (λ a, ∃ source type details,
               a = AnomalyAnalysis.anomaly (mkdt 2024 1 1 12 0 0) source type details
               ∧ source ∈ map fst unordered_evidence
               ∧ AnomalyAnalysis.severity_weights !! type
                 = Some (AnomalyAnalysis.severity_of a))
         unordered_findings
  ∧ ∃ r, Report.generate_anomaly_report (mkdt 2024 1 1 12 0 5) unordered_findings
           (AnomalyAnalysis.calculate_anomaly_severity unordered_findings) = Ok r
         ∧ Report.findings r = unordered_findings.
Proof.
  apply (battery_findings_fit_the_report (mkdt 2024 1 1 12 0 0)
           (mkdt 2024 1 1 12 0 5) unordered_evidence unordered_findings).
  evaluate.
Defined.
